(** * mallory: the GAE engine (gae.go)

    A shallow embedding of [EngineGAE.Serve] and [EngineGAE.Connect].

    Both handlers are I/O glue around the Go standard library, so the
    embedding keeps the handler's own control flow (guards, early returns,
    loops, the buffered channel, deferred calls) and takes every call that
    leaves the handler (net, net/http, net/url, crypto/tls, the certificate
    pool, the Session's log sinks) from a [World]: a record of the answers
    the environment gives.  What a handler does is the list of [Event]s it
    performs, in order.

    The relay phase of [Connect] runs two goroutines over one buffered
    channel; it is embedded as a transition system whose steps are the
    statements at which a goroutine can block or be observed, interleaved
    by an explicit schedule.

    A call into the environment returns: what a library call does is its
    result in the [World], so a run-time panic raised inside a library
    function (net/http dereferencing the nil URL of a request, say) is not
    part of the model. *)

From Stdlib Require Import Ascii.
From stdpp Require Import gmap strings list.

(** ** Errors and results *)

(** Go's [error] values, as far as the handlers tell them apart:
    they compare against [io.EOF] and otherwise only print [err.Error()]. *)
Inductive error :=
| EOF
| ErrUnexpectedEOF
| ErrOther (msg : string).

Global Instance error_eq_dec : EqDecision error.
Proof. solve_decision. Defined.

(** [err.Error()] *)
Definition Error (e : error) : string :=
  match e with
  | EOF => "EOF"
  | ErrUnexpectedEOF => "unexpected EOF"
  | ErrOther msg => msg
  end.

(** A call returning [(value, error)]. A call returning only [error] is an
    [option error], [None] being [nil]. *)
Inductive result (A : Type) :=
| Ok (a : A)
| Err (e : error).
Arguments Ok {A} a.
Arguments Err {A} e.

(** A pointer result of a [(ptr, error)] call: [nil] when the call failed. *)
Definition ptr {A} (r : result A) : option A :=
  match r with Ok a => Some a | Err _ => None end.

(** The [err] result of the same call. *)
Definition err_of {A} (r : result A) : option error :=
  match r with Ok _ => None | Err e => Some e end.

(** ** Data *)

Module url.
(** [url.URL], the fields a proxy request line is made of. *)
Record URL := mkURL {
  Scheme : string;
  Host : string;
  Path : string;
  RawQuery : string
}.
End url.

Module http.
(** [http.Request]. [U] is what the [URL] field holds: net/http always
    sets the pointer on a request it hands over ([U := url.URL]), while
    the tunnel stores back into it whatever [url.Parse] returned, which
    is [nil] on a parse error ([U := option url.URL]). *)
Record Request_ (U : Type) := mkRequest {
  Method : string;
  URL : U;
  Header : gmap string (list string);
  Host : string;
  Close : bool
}.
Arguments mkRequest {U}.
Arguments Method {U}.
Arguments URL {U}.
Arguments Header {U}.
Arguments Host {U}.
Arguments Close {U}.

(** [http.Response]; the header and close flag carry a prefix because
    one module cannot declare two fields of the same name. *)
Record Response := mkResponse {
  Status : string;
  StatusCode : Z;
  RespHeader : gmap string (list string);
  Body : string;
  RespClose : bool
}.

Definition StatusInternalServerError : Z := 500.
End http.

Abbreviation Request := (http.Request_ url.URL).
Abbreviation ProxyRequest := (http.Request_ (option url.URL)).
Abbreviation Response := http.Response.

(** [tls.Certificate], identified by the host it was minted for. *)
Inductive Certificate := mkCert (subject : string).

(** [Env], the global configuration: the fields this engine reads. *)
Record Env := mkEnv {
  Addr : string;
  AppSpot : string;
  Cert : string;
  Key : string;
  EnvWork : string
}.

Record EngineGAE := mkEngineGAE {
  Env_ : Env;
  Work : string;
  CertDir : string
}.

(** [Session]: the correlation id (an int64) and the client's request. The
    response writer and the log sinks act through [World] and [Event]. *)
Record Session := mkSession {
  ID : Z;
  SRequest : Request
}.

(** ** The environment *)

Record World := mkWorld {
  (** net.SplitHostPort(hostport) *)
  SplitHostPort : string -> result (string * string);
  (** does the response writer implement http.Hijacker *)
  Hijacker : bool;
  (** hij.Hijack() *)
  Hijack : option error;
  (** net.Dial(network, address) *)
  Dial : string -> string -> option error;
  (** self.Certs.Get(host) *)
  Certs_Get : string -> result Certificate;
  (** sconn.Handshake() for a server configured with certificate and name *)
  Handshake : Certificate -> string -> option error;
  (** the n-th http.ReadRequest on the TLS connection *)
  ReadRequest : nat -> result Request;
  (** u.String() *)
  URL_String : url.URL -> string;
  (** url.Parse(rawurl) *)
  url_Parse : string -> result url.URL;
  (** the n-th creq.WriteProxy(rconn) *)
  WriteProxy : nat -> ProxyRequest -> option error;
  (** the n-th http.ReadResponse on the backend connection *)
  ReadResponse : nat -> ProxyRequest -> result Response;
  (** the n-th cresp.Write(sconn) *)
  Response_Write : nat -> Response -> option error;
  (** r.WriteProxy(&buf): the bytes left in the buffer *)
  WriteProxy_buf : Request -> result string;
  (** http.Post(url, contentType, body) *)
  Post : string -> string -> string -> result Response;
  (** http.ReadResponse over the body of the upstream's reply *)
  ReadResponse_body : string -> Request -> result Response;
  (** io.Copy(w, cres.Body) *)
  Copy : Response -> option error;
  (** BeautifyDuration(time.Since(start)) *)
  Since : string
}.

(** ** Events *)

Inductive Event :=
| EvError (format : string) (args : list string)     (* s.Error *)
| EvInfo (format : string) (args : list string)      (* s.Info *)
| EvHijack                                           (* hij.Hijack() *)
| EvDial (network address : string)                  (* net.Dial *)
| EvConnWrite (b : string)                           (* conn.Write *)
| EvCertsGet (host : string)                         (* self.Certs.Get *)
| EvHandshake (cert : Certificate) (ServerName : string)
| EvReadRequest (r : result Request)                 (* http.ReadRequest(sconn) *)
| EvWriteProxy (creq : ProxyRequest) (err : option error)
| EvSend (creq : ProxyRequest)                       (* rch <- creq *)
| EvChanClose                                        (* close(rch) *)
| EvRecv (creq : option ProxyRequest)                (* creq, ok := <-rch *)
| EvReadResponse (creq : ProxyRequest) (r : result Response)
| EvRespWrite (cresp : Response) (err : option error) (* cresp.Write(sconn) *)
| EvBodyClose (resp : Response)                      (* resp.Body.Close() *)
| EvSconnClose
| EvRconnClose
| EvConnClose
| EvPost (url contentType body : string)             (* http.Post *)
| EvCopyHeader (cres : Response)                     (* CopyHeader(w, cres) *)
| EvWriteHeader (code : Z)                           (* w.WriteHeader *)
| EvCopy (cres : Response) (err : option error).     (* io.Copy(w, cres.Body) *)

Definition is_error (ev : Event) : bool :=
  match ev with EvError _ _ => true | _ => false end.

Definition is_info (ev : Event) : bool :=
  match ev with EvInfo _ _ => true | _ => false end.

(** ** strconv.FormatInt *)

Module strconv.
Definition digits : string := "0123456789abcdefghijklmnopqrstuvwxyz".

Definition digit (d : N) : ascii :=
  match String.get (N.to_nat d) digits with
  | Some c => c
  | None => "0"%char
  end.

(** The digits of [u] in base [b], most significant first, pushed in
    front of [acc]; the fuel covers one round per digit. *)
Fixpoint formatBits (fuel : nat) (u b : N) (acc : string) : string :=
  match fuel with
  | O => acc
  | S fuel' =>
      if (u <? b)%N then String (digit u) acc
      else formatBits fuel' (u / b)%N b (String (digit (u mod b)%N) acc)
  end.

(** [FormatInt(i, base)] for 2 <= base <= 36. A number has at most one
    digit per bit, whatever the base. *)
Definition FormatInt (i : Z) (base : Z) : string :=
  let u := Z.abs_N i in
  let s := formatBits (S (N.to_nat (N.log2 u))) u (Z.to_N base) EmptyString in
  if (i <? 0)%Z then String "-"%char s else s.
End strconv.

(** ** EngineGAE.Serve *)

Definition CR : string := String "013"%char EmptyString.
Definition LF : string := String "010"%char EmptyString.
Definition CRLF : string := CR +:+ LF.

(** The endpoint the client's request is posted to: the application's
    [/http] handler over https, or the local development server when the
    configured application is ["debug"]. *)
Definition upstream_url (self : EngineGAE) : string :=
  if decide (AppSpot (Env_ self) = "debug")
  then "http://localhost:8080/http"
  else "https://" +:+ AppSpot (Env_ self) +:+ ".appspot.com/http".

Definition Serve (w : World) (self : EngineGAE) (s : Session) : list Event :=
  let r := SRequest s in
  if decide (http.Method r = "CONNECT") then
    [EvError "this function can not handle CONNECT method" []]
  else
    match WriteProxy_buf w r with
    | Err e => [EvError "WriteProxy: %s" [Error e]]
    | Ok buf =>
        let url := upstream_url self in
        EvPost url "application/data" buf ::
        match Post w url "application/data" buf with
        | Err e => [EvError "Post: %s" [Error e]]
        | Ok resp =>
            if decide (http.StatusCode resp = http.StatusInternalServerError) then
              [EvError "%s %s" [http.Method r; http.Status resp];
               EvBodyClose resp]
            else
              match ReadResponse_body w (http.Body resp) r with
              | Err e =>
                  [EvError "ReadResponse: %s" [Error e]; EvBodyClose resp]
              | Ok cres =>
                  EvCopyHeader cres ::
                  EvWriteHeader (http.StatusCode cres) ::
                  EvCopy cres (Copy w cres) ::
                  match Copy w cres with
                  | Some e => [EvError "Copy: %s" [Error e]]
                  | None => [EvInfo "RESPONSE %s %s" [http.Status resp; Since w]]
                  end ++ [EvBodyClose cres; EvBodyClose resp]
              end
        end
    end.

(** ** EngineGAE.Connect: from the method check to the TLS handshake *)

Definition status200 : string := "HTTP/1.1 200 OK" +:+ CRLF +:+ CRLF.

(** Lines 141-208. The second component is [Some (host, cert)] when the
    handshake succeeded and the relay loops start; on every early return
    the deferred closes registered so far run, last registered first. *)
Definition Connect_setup (w : World) (self : EngineGAE) (s : Session)
  : list Event * option (string * Certificate) :=
  let r := SRequest s in
  if decide (http.Method r ≠ "CONNECT") then
    ([EvError "this function can only handle CONNECT method" []], None)
  else
    match SplitHostPort w (url.Host (http.URL r)) with
    | Err e => ([EvError "SplitHostPort: %s" [Error e]], None)
    | Ok (host, port) =>
        if decide (port ≠ "443") then
          ([EvError "unsupported CONNECT port: %s" [port]], None)
        else if negb (Hijacker w) then
          ([EvError "Server does not support Hijacker" []], None)
        else
          match Hijack w with
          | Some e => ([EvHijack; EvError "Hijack: %s" [Error e]], None)
          | None =>
              let addr := Addr (Env_ self) in
              match Dial w "tcp" addr with
              | Some e =>
                  ([EvHijack; EvDial "tcp" addr;
                    EvError "Dial: %s" [Error e];
                    EvConnClose], None)
              | None =>
                  let pre := [EvHijack; EvDial "tcp" addr;
                              EvConnWrite status200; EvCertsGet host] in
                  match Certs_Get w host with
                  | Err e =>
                      (pre ++ [EvError "CertPool.Get: %s" [Error e];
                               EvRconnClose; EvConnClose], None)
                  | Ok cert =>
                      match Handshake w cert host with
                      | Some e =>
                          (pre ++ [EvHandshake cert host;
                                   EvError "Handshake: %s" [Error e];
                                   EvSconnClose; EvRconnClose; EvConnClose],
                           None)
                      | None =>
                          (pre ++ [EvHandshake cert host], Some (host, cert))
                      end
                  end
              end
          end
    end.

(** ** EngineGAE.Connect: the relay loops *)

(** Lines 227-228: the URL is replaced by the parse of the fully-qualified
    form and the request is tagged with the session id. [Header.Set]
    replaces whatever values the key had; ["Mallory-Session"] is already in
    canonical MIME form. *)
Definition rewritten_url (w : World) (host : string) (creq : Request) : string :=
  "https://" +:+ host +:+ URL_String w (http.URL creq).

Definition rewrite (w : World) (host : string) (s : Session) (creq : Request)
  : ProxyRequest :=
  {| http.Method := http.Method creq;
     http.URL := ptr (url_Parse w (rewritten_url w host creq));
     http.Header := <["Mallory-Session" := [strconv.FormatInt (ID s) 10]]>
                      (http.Header creq);
     http.Host := http.Host creq;
     http.Close := http.Close creq |}.

(** Where the request-reading goroutine stands. [UWriteProxy] carries the
    local [err] as line 227 left it. *)
Inductive UpPC :=
| URead
| UWriteProxy (creq : ProxyRequest) (err : option error)
| USend (creq : ProxyRequest)
| UBreak
| UDone.

(** Where the response-writing loop of the handler's own goroutine stands. *)
Inductive DownPC :=
| DRecv
| DReadResponse (creq : ProxyRequest)
| DWrite (cresp : Response)
| DBreak
| DDone.

Record Tunnel := mkTunnel {
  up : UpPC;
  down : DownPC;
  rch : list ProxyRequest;       (* buffered requests, oldest first *)
  rch_closed : bool;
  ui : nat;                      (* iterations the upstream loop completed *)
  dj : nat;                      (* iterations the downstream loop completed *)
  deferred : list Response;      (* pending cresp.Body.Close(), newest first *)
  trace : list Event
}.

(** make(chan *http.Request, 8) *)
Definition rch_cap : nat := 8.

Definition init : Tunnel :=
  {| up := URead; down := DRecv; rch := []; rch_closed := false;
     ui := 0; dj := 0; deferred := []; trace := [] |}.

Definition emit (evs : list Event) (st : Tunnel) : Tunnel :=
  {| up := up st; down := down st; rch := rch st; rch_closed := rch_closed st;
     ui := ui st; dj := dj st; deferred := deferred st;
     trace := trace st ++ evs |}.

Definition set_up (pc : UpPC) (st : Tunnel) : Tunnel :=
  {| up := pc; down := down st; rch := rch st; rch_closed := rch_closed st;
     ui := ui st; dj := dj st; deferred := deferred st; trace := trace st |}.

Definition set_down (pc : DownPC) (st : Tunnel) : Tunnel :=
  {| up := up st; down := pc; rch := rch st; rch_closed := rch_closed st;
     ui := ui st; dj := dj st; deferred := deferred st; trace := trace st |}.

Definition set_rch (q : list ProxyRequest) (st : Tunnel) : Tunnel :=
  {| up := up st; down := down st; rch := q; rch_closed := rch_closed st;
     ui := ui st; dj := dj st; deferred := deferred st; trace := trace st |}.

Definition close_rch (st : Tunnel) : Tunnel :=
  {| up := up st; down := down st; rch := rch st; rch_closed := true;
     ui := ui st; dj := dj st; deferred := deferred st; trace := trace st |}.

Definition next_ui (st : Tunnel) : Tunnel :=
  {| up := up st; down := down st; rch := rch st; rch_closed := rch_closed st;
     ui := S (ui st); dj := dj st; deferred := deferred st; trace := trace st |}.

Definition next_dj (st : Tunnel) : Tunnel :=
  {| up := up st; down := down st; rch := rch st; rch_closed := rch_closed st;
     ui := ui st; dj := S (dj st); deferred := deferred st; trace := trace st |}.

Definition defer_close (cresp : Response) (st : Tunnel) : Tunnel :=
  {| up := up st; down := down st; rch := rch st; rch_closed := rch_closed st;
     ui := ui st; dj := dj st; deferred := cresp :: deferred st;
     trace := trace st |}.

Section Relay.
Context (w : World) (host : string) (s : Session).

(** One step of the goroutine of lines 214-245; [None] when it cannot
    move: blocked on a full channel, or finished. *)
Definition up_step (st : Tunnel) : option Tunnel :=
  match up st with
  | URead =>
      match ReadRequest w (ui st) with
      | Err e =>
          Some (set_up UBreak
            (emit (EvReadRequest (Err e) ::
                   if decide (e ≠ EOF)
                   then [EvError "ReadRequest: %s" [Error e]]
                   else []) st))
      | Ok creq =>
          Some (set_up
            (UWriteProxy (rewrite w host s creq)
                         (err_of (url_Parse w (rewritten_url w host creq))))
            (emit [EvReadRequest (Ok creq)] st))
      end
  | UWriteProxy creq _ =>
      match WriteProxy w (ui st) creq with
      | Some e =>
          Some (set_up UBreak
            (emit [EvWriteProxy creq (Some e);
                   EvError "WriteProxy: %s" [Error e]] st))
      | None =>
          Some (set_up (USend creq) (emit [EvWriteProxy creq None] st))
      end
  | USend creq =>
      if decide (length (rch st) < rch_cap) then
        Some (set_up (if http.Close creq then UBreak else URead)
                (next_ui (set_rch (rch st ++ [creq]) (emit [EvSend creq] st))))
      else None
  | UBreak => Some (set_up UDone (close_rch (emit [EvChanClose] st)))
  | UDone => None
  end.

(** One step of the loop of lines 247-275 and of the handler's return;
    [None] when it cannot move: blocked on an empty open channel, or
    returned. *)
Definition down_step (st : Tunnel) : option Tunnel :=
  match down st with
  | DRecv =>
      match rch st with
      | creq :: q =>
          Some (set_down (DReadResponse creq)
                  (set_rch q (emit [EvRecv (Some creq)] st)))
      | [] =>
          if rch_closed st
          then Some (set_down DBreak (emit [EvRecv None] st))
          else None
      end
  | DReadResponse creq =>
      match ReadResponse w (dj st) creq with
      | Err e =>
          Some (set_down DBreak
            (emit [EvReadResponse creq (Err e);
                   EvError "ReadResponse: %s" [Error e]] st))
      | Ok cresp =>
          Some (set_down (DWrite cresp)
            (defer_close cresp (emit [EvReadResponse creq (Ok cresp)] st)))
      end
  | DWrite cresp =>
      match Response_Write w (dj st) cresp with
      | Some e =>
          Some (set_down DBreak
            (emit (EvRespWrite cresp (Some e) ::
                   if decide (e ≠ EOF)
                   then [EvError "Write: %s" [Error e]]
                   else []) st))
      | None =>
          Some (set_down (if http.RespClose cresp then DBreak else DRecv)
                  (next_dj (emit [EvRespWrite cresp None] st)))
      end
  | DBreak =>
      Some (set_down DDone
        (emit (EvInfo "CLOSE %s" [Since w] ::
               map EvBodyClose (deferred st) ++
               [EvSconnClose; EvRconnClose; EvConnClose]) st))
  | DDone => None
  end.

Inductive Tid := Up | Down.

Definition step (t : Tid) (st : Tunnel) : option Tunnel :=
  match t with
  | Up => up_step st
  | Down => down_step st
  end.

(** Run a schedule: the goroutine named next moves if it can, and the
    state is left as it is when that goroutine is blocked or finished. *)
Fixpoint run (sched : list Tid) (st : Tunnel) : Tunnel :=
  match sched with
  | [] => st
  | t :: sched' => run sched' (default st (step t st))
  end.
End Relay.

(** The whole handler under a schedule of the two relay goroutines. *)
Definition Connect (w : World) (self : EngineGAE) (s : Session)
  (sched : list Tid) : list Event :=
  match Connect_setup w self s with
  | (tr, None) => tr
  | (tr, Some (host, _)) => tr ++ trace (run w host s sched init)
  end.

(** ** A concrete environment

    Stand-ins for the library calls, used to run the handlers on concrete
    inputs. [net_SplitHostPort] follows Go's [net.SplitHostPort];
    [URL_String] and [url_Parse] cover the origin-form and https-form
    targets that occur inside a tunnel. *)
Module Sample.

Fixpoint IndexByte (s : string) (c : ascii) : option nat :=
  match s with
  | EmptyString => None
  | String a s' =>
      if decide (a = c) then Some 0 else S <$> IndexByte s' c
  end.

Fixpoint LastIndexByte (s : string) (c : ascii) : option nat :=
  match s with
  | EmptyString => None
  | String a s' =>
      match LastIndexByte s' c with
      | Some i => Some (S i)
      | None => if decide (a = c) then Some 0 else None
      end
  end.

(** s[i:j] and s[i:] *)
Definition slice (s : string) (i j : nat) : string := String.substring i (j - i) s.
Definition slice_from (s : string) (i : nat) : string :=
  String.substring i (String.length s - i) s.

Definition addrErr {A} (addr why : string) : result A :=
  Err (ErrOther (if decide (addr = EmptyString) then why
                 else "address " +:+ addr +:+ ": " +:+ why)).

Definition net_SplitHostPort (hostport : string) : result (string * string) :=
  match LastIndexByte hostport ":" with
  | None => addrErr hostport "missing port in address"
  | Some i =>
      let bracketed :=
        match String.get 0 hostport with
        | Some c => bool_decide (c = "["%char)
        | None => false
        end in
      let checked : result (string * nat * nat) :=
        if bracketed then
          match IndexByte hostport "]" with
          | None => addrErr hostport "missing ']' in address"
          | Some e =>
              if decide (e + 1 = String.length hostport) then
                addrErr hostport "missing port in address"
              else if decide (e + 1 = i) then
                Ok (slice hostport 1 e, 1, e + 1)
              else if decide (String.get (e + 1) hostport = Some ":"%char) then
                addrErr hostport "too many colons in address"
              else addrErr hostport "missing port in address"
          end
        else
          let h := slice hostport 0 i in
          match IndexByte h ":" with
          | Some _ => addrErr hostport "too many colons in address"
          | None => Ok (h, 0, 0)
          end in
      match checked with
      | Err e => Err e
      | Ok (h, j, k) =>
          if decide (is_Some (IndexByte (slice_from hostport j) "[")) then
            addrErr hostport "unexpected '[' in address"
          else if decide (is_Some (IndexByte (slice_from hostport k) "]")) then
            addrErr hostport "unexpected ']' in address"
          else Ok (h, slice_from hostport (i + 1))
      end
  end.

Definition with_query (u : url.URL) : string :=
  if decide (url.RawQuery u = EmptyString) then url.Path u
  else url.Path u +:+ "?" +:+ url.RawQuery u.

Definition String_ (u : url.URL) : string :=
  if decide (url.Scheme u = EmptyString) then with_query u
  else url.Scheme u +:+ "://" +:+ url.Host u +:+ with_query u.

Definition is_digit (c : ascii) : bool :=
  let n := nat_of_ascii c in bool_decide (48 <= n <= 57).

Fixpoint all_digits (s : string) : bool :=
  match s with
  | EmptyString => true
  | String c s' => is_digit c && all_digits s'
  end.

(** An https target: authority up to the first slash, an optional
    all-digit port, then path and query. *)
Definition Parse (rawurl : string) : result url.URL :=
  if negb (String.prefix "https://" rawurl) then
    Err (ErrOther ("parse " +:+ rawurl +:+ ": unsupported scheme"))
  else
    let rest := slice_from rawurl 8 in
    let cut := default (String.length rest) (IndexByte rest "/") in
    let authority := slice rest 0 cut in
    let target := slice_from rest cut in
    let port_ok :=
      match LastIndexByte authority ":" with
      | None => true
      | Some i => all_digits (slice_from authority (i + 1))
      end in
    if negb port_ok then
      Err (ErrOther ("parse " +:+ rawurl +:+ ": invalid port after host"))
    else
      match IndexByte target "?" with
      | None => Ok (url.mkURL "https" authority target EmptyString)
      | Some q =>
          Ok (url.mkURL "https" authority (slice target 0 q)
                (slice_from target (q + 1)))
      end.

Definition GET (path : string) (close : bool) : Request :=
  http.mkRequest "GET" (url.mkURL EmptyString EmptyString path EmptyString) ∅ "secure.example.com" close.

Definition CONNECT (hostport : string) : Request :=
  http.mkRequest "CONNECT" (url.mkURL EmptyString hostport EmptyString EmptyString) ∅ hostport false.

Definition reply (body : string) (close : bool) : Response :=
  http.mkResponse "200 OK" 200 ∅ body close.

Definition path_of (creq : ProxyRequest) : string :=
  match http.URL creq with
  | Some u => url.Path u
  | None => EmptyString
  end.

(** A client that sends [reqs] and then closes, a backend that answers
    every request with its path as body, and no failure anywhere. *)
Definition world (reqs : list Request) : World :=
  {| SplitHostPort := net_SplitHostPort;
     Hijacker := true;
     Hijack := None;
     Dial := fun _ _ => None;
     Certs_Get := fun h => Ok (mkCert h);
     Handshake := fun _ _ => None;
     ReadRequest := fun n => match reqs !! n with
                             | Some r => Ok r
                             | None => Err EOF
                             end;
     URL_String := String_;
     url_Parse := Parse;
     WriteProxy := fun _ _ => None;
     ReadResponse := fun _ creq => Ok (reply (path_of creq) (http.Close creq));
     Response_Write := fun _ _ => None;
     WriteProxy_buf := fun r =>
       Ok (http.Method r +:+ " " +:+ String_ (http.URL r) +:+ " HTTP/1.1"
           +:+ CRLF +:+ CRLF);
     Post := fun _ _ body => Ok (reply body false);
     ReadResponse_body := fun body _ => Ok (reply body false);
     Copy := fun _ => None;
     Since := "1ms" |}.

Definition engine : EngineGAE :=
  mkEngineGAE (mkEnv "127.0.0.1:1315" "mallory" "mallory.crt" "mallory.key"
                 "/home/u/.mallory") "/home/u/.mallory/gae"
              "/home/u/.mallory/gae/certs".

Definition session (r : Request) : Session := mkSession 7 r.

(** Schedules: [n] moves of one goroutine. *)
Definition ups (n : nat) : list Tid := replicate n Up.
Definition downs (n : nat) : list Tid := replicate n Down.
End Sample.

(** * Vocabulary of the properties *)

(** Events the relay loops can perform. *)
Definition relay_event (ev : Event) : bool :=
  match ev with
  | EvHijack | EvDial _ _ | EvConnWrite _ | EvCertsGet _ | EvHandshake _ _
  | EvPost _ _ _ | EvCopyHeader _ | EvWriteHeader _ | EvCopy _ _ => false
  | _ => true
  end.

Definition is_hijack_or_dial (ev : Event) : bool :=
  match ev with EvHijack | EvDial _ _ => true | _ => false end.

(** The calls that precede the handshake. *)
Definition is_pre_handshake (ev : Event) : bool :=
  match ev with
  | EvHijack | EvDial _ _ | EvConnWrite _ | EvCertsGet _ => true
  | _ => false
  end.

(** The requests written to the backend, in the order of the writes. *)
Definition sent_upstream (tr : list Event) : list ProxyRequest :=
  omap (fun ev => match ev with
                  | EvWriteProxy creq None => Some creq
                  | _ => None
                  end) tr.

(** The requests the downstream loop took from the channel. *)
Definition received (tr : list Event) : list ProxyRequest :=
  omap (fun ev => match ev with
                  | EvRecv (Some creq) => Some creq
                  | _ => None
                  end) tr.

(** What the downstream loop did on the two connections: the responses it
    read from the backend and the responses it wrote to the client. *)
Definition down_io (tr : list Event) : list Event :=
  omap (fun ev => match ev with
                  | EvReadResponse _ _ | EvRespWrite _ _ => Some ev
                  | _ => None
                  end) tr.

(** The write of the [j]-th response, then [k] unless the loop stops. *)
Definition then_write (w : World) (j : nat) (cresp : Response)
  (k : list Event) : list Event :=
  EvRespWrite cresp (Response_Write w j cresp) ::
  match Response_Write w j cresp with
  | Some _ => []
  | None => if http.RespClose cresp then [] else k
  end.

(** Serving [reqs] strictly one after the other from exchange [j] on:
    read the response to the first, write it, and only then turn to the
    next; stop at the first failure or closing response. *)
Fixpoint in_order (w : World) (j : nat) (reqs : list ProxyRequest)
  : list Event :=
  match reqs with
  | [] => []
  | creq :: reqs' =>
      EvReadResponse creq (ReadResponse w j creq) ::
      match ReadResponse w j creq with
      | Err _ => []
      | Ok cresp => then_write w j cresp (in_order w (S j) reqs')
      end
  end.

(** The request written upstream but not yet published. *)
Definition unpublished (st : Tunnel) : list ProxyRequest :=
  match up st with
  | USend creq => [creq]
  | _ => []
  end.

(** Every request written upstream is received, queued or about to be
    queued, in that order. *)
Definition accounted (st : Tunnel) : Prop :=
  sent_upstream (trace st) = received (trace st) ++ rch st ++ unpublished st.

(** The downstream loop has served the received requests in order, up to
    where it stands. *)
Definition served_in_order (w : World) (st : Tunnel) : Prop :=
  match down st with
  | DRecv =>
      forall tail,
        in_order w 0 (received (trace st) ++ tail) =
        down_io (trace st) ++ in_order w (dj st) tail
  | DReadResponse creq =>
      exists done,
        received (trace st) = done ++ [creq] /\
        forall tail,
          in_order w 0 (done ++ creq :: tail) =
          down_io (trace st) ++ in_order w (dj st) (creq :: tail)
  | DWrite cresp =>
      exists done creq,
        received (trace st) = done ++ [creq] /\
        forall tail,
          in_order w 0 (done ++ creq :: tail) =
          down_io (trace st) ++
          then_write w (dj st) cresp (in_order w (S (dj st)) tail)
  | DBreak | DDone =>
      forall tail,
        down_io (trace st) `prefix_of`
        in_order w 0 (received (trace st) ++ tail)
  end.

(** The bodies written back to the client, in the order of the writes. *)
Definition written_bodies (tr : list Event) : list string :=
  omap (fun ev => match ev with
                  | EvRespWrite cresp None => Some (http.Body cresp)
                  | _ => None
                  end) tr.

(** The [i]-th request written to the backend is the rewrite of the
    [i]-th request read from the client. *)
Definition forwarded_rewritten (w : World) (host : string) (s : Session)
  (st : Tunnel) : Prop :=
  (forall i creq,
      sent_upstream (trace st) !! i = Some creq ->
      exists creq0, ReadRequest w i = Ok creq0 /\ creq = rewrite w host s creq0)
  /\ length (sent_upstream (trace st)) = ui st + length (unpublished st)
  /\ (forall creq e,
        up st = UWriteProxy creq e ->
        exists creq0,
          ReadRequest w (ui st) = Ok creq0 /\ creq = rewrite w host s creq0).



Definition is_body_close (ev : Event) : bool :=
  match ev with EvBodyClose _ => true | _ => false end.

(** Backpressure read to the letter: with eight requests in the queue the
    upstream loop is blocked and reads no further request. *)
Definition stops_reading_at_eight : Prop :=
  forall w host s sched,
    let st := run w host s sched init in
    length (rch st) = 8 -> up_step w host s st = None.


(** "An HTTPS POST" read to the letter: whatever is posted is posted over
    https. *)
Definition posts_over_https : Prop :=
  forall w self s url contentType body,
    EvPost url contentType body ∈ Serve w self s ->
    String.prefix "https://" url = true.

(** ** Concrete inputs *)

Definition tunnel_session : Session :=
  Sample.session (Sample.CONNECT "secure.example.com:443").

Definition pipelined : list Event :=
  Connect (Sample.world [Sample.GET "/a" false; Sample.GET "/b" false;
                         Sample.GET "/c" true])
          Sample.engine
          (Sample.session (Sample.CONNECT "secure.example.com:443"))
          (Sample.ups 12 ++ Sample.downs 12).

Definition nine_requests : list Request :=
  map (fun p => Sample.GET p false)
      ["/1"; "/2"; "/3"; "/4"; "/5"; "/6"; "/7"; "/8"; "/9"].

(** The tunnel after [n] moves of the upstream goroutine alone, the client
    having pipelined nine requests. *)
Definition flooded (n : nat) : Tunnel :=
  run (Sample.world nine_requests) "secure.example.com" tunnel_session
      (Sample.ups n) init.

Definition v6_session : Session :=
  Sample.session (Sample.CONNECT "[fe80::abcd]:443").

(** The sample environment with a backend that ends every read with [e]. *)
Definition backend_ends (e : error) (reqs : list Request) : World :=
  let w := Sample.world reqs in
  {| SplitHostPort := SplitHostPort w; Hijacker := Hijacker w;
     Hijack := Hijack w; Dial := Dial w; Certs_Get := Certs_Get w;
     Handshake := Handshake w; ReadRequest := ReadRequest w;
     URL_String := URL_String w; url_Parse := url_Parse w;
     WriteProxy := WriteProxy w;
     ReadResponse := fun _ _ => Err e;
     Response_Write := Response_Write w;
     WriteProxy_buf := WriteProxy_buf w; Post := Post w;
     ReadResponse_body := ReadResponse_body w; Copy := Copy w;
     Since := Since w |}.

Definition backend_eof_trace (e : error) : list Event :=
  Connect (backend_ends e [Sample.GET "/" false]) Sample.engine tunnel_session
          (Sample.ups 3 ++ Sample.downs 3).

Definition debug_engine : EngineGAE :=
  mkEngineGAE (mkEnv "127.0.0.1:1315" "debug" "mallory.crt" "mallory.key"
                 "/home/u/.mallory") "/home/u/.mallory/gae"
              "/home/u/.mallory/gae/certs".

Definition plain_session : Session :=
  Sample.session
    (http.mkRequest "GET" (url.mkURL "http" "example.com" "/" EmptyString) ∅
                    "example.com" false).


(** * EngineGAE construction *)

(** The certificate pool, as far as this file sees it: the value
    [NewCertPool] builds from the directory and the root certificate. *)
Inductive CertPool := NewCertPool (dir : string) (root : Certificate).

(** What the constructor asks of the operating system and of crypto/tls. *)
Record Host := mkHost {
  (** path.Join(elem...) *)
  path_Join : list string -> string;
  (** os.MkdirAll(path, perm) *)
  MkdirAll : string -> Z -> option error;
  (** os.IsExist(err) *)
  IsExist : error -> bool;
  (** tls.LoadX509KeyPair(certFile, keyFile) *)
  LoadX509KeyPair : string -> string -> result Certificate
}.

Inductive InitEvent :=
| EvMkdirAll (path : string) (perm : Z)
| EvLoadX509KeyPair (certFile keyFile : string)
| EvNewCertPool (dir : string) (root : Certificate).

(** The engine as the constructor leaves it: the fields of [EngineGAE]
    together with the two pointers it sets last, [nil] until then. *)
Record Created := mkCreated {
  Engine : EngineGAE;
  RootCA : option Certificate;
  Certs : option CertPool
}.

(** Lines 33-51. The results are named, so the engine allocated on the
    first line is returned on every path, the error beside it. *)
Definition CreateEngineGAE (h : Host) (e : Env)
  : Created * option error * list InitEvent :=
  let work := path_Join h [EnvWork e; "gae"] in
  let certDir := path_Join h [work; "certs"] in
  let self0 := mkEngineGAE e work certDir in
  let mk := EvMkdirAll certDir 493 in
  let load := EvLoadX509KeyPair (Cert e) (Key e) in
  match MkdirAll h certDir 493 with
  | Some err =>
      if negb (IsExist h err) then
        (mkCreated self0 None None, Some err, [mk])
      else
        match LoadX509KeyPair h (Cert e) (Key e) with
        | Err err' => (mkCreated self0 None None, Some err', [mk; load])
        | Ok rcert =>
            (mkCreated self0 (Some rcert) (Some (NewCertPool certDir rcert)),
             None, [mk; load; EvNewCertPool certDir rcert])
        end
  | None =>
      match LoadX509KeyPair h (Cert e) (Key e) with
      | Err err' => (mkCreated self0 None None, Some err', [mk; load])
      | Ok rcert =>
          (mkCreated self0 (Some rcert) (Some (NewCertPool certDir rcert)),
           None, [mk; load; EvNewCertPool certDir rcert])
      end
  end.

(** * Vocabulary of the further properties *)

(** The requests read from the client. *)
Definition parsed (tr : list Event) : list Request :=
  omap (fun ev => match ev with
                  | EvReadRequest (Ok creq) => Some creq
                  | _ => None
                  end) tr.

(** The requests sent on the channel. *)
Definition published (tr : list Event) : list ProxyRequest :=
  omap (fun ev => match ev with
                  | EvSend creq => Some creq
                  | _ => None
                  end) tr.

(** The responses read from the backend. *)
Definition responses_read (tr : list Event) : list Response :=
  omap (fun ev => match ev with
                  | EvReadResponse _ (Ok cresp) => Some cresp
                  | _ => None
                  end) tr.

(** The responses written in full to the client. *)
Definition answered (tr : list Event) : list Response :=
  omap (fun ev => match ev with
                  | EvRespWrite cresp None => Some cresp
                  | _ => None
                  end) tr.

(** The operations of the upstream goroutine on the channel: [false] for
    a send, [true] for the close. *)
Definition chan_ops (tr : list Event) : list bool :=
  omap (fun ev => match ev with
                  | EvSend _ => Some false
                  | EvChanClose => Some true
                  | _ => None
                  end) tr.

(** The closes: of response bodies and of the three connections. *)
Definition releases (tr : list Event) : list Event :=
  omap (fun ev => match ev with
                  | EvBodyClose _ | EvSconnClose | EvRconnClose
                  | EvConnClose => Some ev
                  | _ => None
                  end) tr.

(** Whether the downstream loop saw the channel closed. *)
Definition saw_closed (tr : list Event) : bool :=
  existsb (fun ev => match ev with EvRecv None => true | _ => false end) tr.

Definition is_hijack (ev : Event) : bool :=
  match ev with EvHijack => true | _ => false end.

Definition is_dial (ev : Event) : bool :=
  match ev with EvDial _ _ => true | _ => false end.

Definition is_handshake (ev : Event) : bool :=
  match ev with EvHandshake _ _ => true | _ => false end.

(** The closes the handler owes for the connections it holds, in the order
    the deferred calls run: the TLS wrapper exists once the handshake is
    tried, the backend connection once the dial succeeded, the client
    connection once the hijack succeeded. *)
Definition owed (w : World) (self : EngineGAE) (tr : list Event) : list Event :=
  (if existsb is_handshake tr then [EvSconnClose] else []) ++
  (if existsb is_dial tr && bool_decide (Dial w "tcp" (Addr (Env_ self)) = None)
   then [EvRconnClose] else []) ++
  (if existsb is_hijack tr && bool_decide (Hijack w = None)
   then [EvConnClose] else []).

Definition is_done (pc : DownPC) : bool :=
  match pc with DDone => true | _ => false end.

(** Whether [Connect] has returned under the schedule. *)
Definition handler_returned (w : World) (self : EngineGAE) (s : Session)
  (sched : list Tid) : bool :=
  match Connect_setup w self s with
  | (_, None) => true
  | (_, Some (host, _)) => is_done (down (run w host s sched init))
  end.



(** The events of the relay phase proper. *)
Definition is_relay_io (ev : Event) : bool :=
  match ev with
  | EvReadRequest _ | EvWriteProxy _ _ | EvSend _ | EvChanClose | EvRecv _
  | EvReadResponse _ _ | EvRespWrite _ _ | EvInfo _ _ => true
  | _ => false
  end.

(** The counters of the two loops against what the trace shows. *)
Definition bookkeeping (st : Tunnel) : Prop :=
  published (trace st) = received (trace st) ++ rch st
  /\ length (published (trace st)) = ui st
  /\ length (answered (trace st)) = dj st
  /\ match down st with
     | DRecv => length (received (trace st)) = dj st
     | DReadResponse _ | DWrite _ => length (received (trace st)) = S (dj st)
     | DBreak | DDone => length (received (trace st)) <= S (dj st)
     end
  /\ match up st with
     | URead => length (parsed (trace st)) = ui st
     | UWriteProxy _ _ | USend _ => length (parsed (trace st)) = S (ui st)
     | UBreak | UDone => ui st <= length (parsed (trace st)) <= S (ui st)
     end
  /\ (rch_closed st = true <-> up st = UDone)
  /\ chan_ops (trace st) =
     replicate (ui st) false ++ (if rch_closed st then [true] else [])
  /\ (saw_closed (trace st) = true ->
      rch st = [] /\ rch_closed st = true /\
      length (received (trace st)) = dj st /\
      match down st with DBreak | DDone => True | _ => False end).

(** The requests read so far are the successive answers of ReadRequest. *)
Definition reads_in_order (w : World) (st : Tunnel) : Prop :=
  forall i creq0, parsed (trace st) !! i = Some creq0 -> ReadRequest w i = Ok creq0.

(** The failures reported and the completions recorded through the session. *)
Definition reported (tr : list Event) : list (string * list string) :=
  omap (fun ev => match ev with
                  | EvError format args => Some (format, args)
                  | _ => None
                  end) tr.

Definition recorded (tr : list Event) : list (string * list string) :=
  omap (fun ev => match ev with
                  | EvInfo format args => Some (format, args)
                  | _ => None
                  end) tr.

Definition up_out (pc : UpPC) : bool :=
  match pc with UBreak | UDone => true | _ => false end.

Definition down_out (pc : DownPC) : bool :=
  match pc with DBreak | DDone => true | _ => false end.

(** Whether the setup succeeded and the relay loops started. *)
Definition relay_started (w : World) (self : EngineGAE) (s : Session) : bool :=
  match (Connect_setup w self s).2 with Some _ => true | None => false end.

(** Each loop reports at most once, on its way out; the completion is
    recorded at the return. *)
Definition log_discipline (w : World) (st : Tunnel) : Prop :=
  length (reported (trace st)) <=
    (if up_out (up st) then 1 else 0) + (if down_out (down st) then 1 else 0)
  /\ recorded (trace st) =
     if is_done (down st) then [("CLOSE %s", [Since w])] else [].

(** The closes against the responses read: none while the loop runs. *)
Definition bodies_deferred (st : Tunnel) : Prop :=
  if is_done (down st)
  then releases (trace st) =
       map EvBodyClose (reverse (responses_read (trace st))) ++
       [EvSconnClose; EvRconnClose; EvConnClose]
  else releases (trace st) = [] /\
       deferred st = reverse (responses_read (trace st)).

(** ** Concrete inputs, continued *)

Definition sample_host (mkdir : option error) (exists_ : bool)
  (pair : result Certificate) : Host :=
  {| path_Join := fun elems => foldr (fun e acc =>
                                 if decide (acc = EmptyString) then e
                                 else e +:+ "/" +:+ acc) EmptyString elems;
     MkdirAll := fun _ _ => mkdir;
     IsExist := fun _ => exists_;
     LoadX509KeyPair := fun _ _ => pair |}.

(** Split a step of the relay into the statement executed and the answer
    of the environment. *)
Ltac step_cases t st Hst :=
  destruct t; simpl in Hst; unfold up_step, down_step in Hst;
  [destruct (up st) eqn:?Hup | destruct (down st) eqn:?Hdown];
  repeat (match type of Hst with
          | context [match ?x with _ => _ end] => destruct x eqn:?
          end);
  simplify_eq/=.

Definition ten_requests : list Request :=
  map (fun p => Sample.GET p false)
      ["/1"; "/2"; "/3"; "/4"; "/5"; "/6"; "/7"; "/8"; "/9"; "/10"].

(** The host with a directory creation that succeeds. *)
Definition mkdir_ok (h : Host) : Host :=
  {| path_Join := path_Join h; MkdirAll := fun _ _ => None;
     IsExist := IsExist h; LoadX509KeyPair := LoadX509KeyPair h |}.

(** The backend ends the stream at the first response while the client has
    pipelined ten requests: the handler returns and the upstream goroutine
    goes on until the channel is full. *)
Definition abandoned : Tunnel :=
  run (backend_ends EOF ten_requests) "secure.example.com" tunnel_session
      (Sample.ups 3 ++ Sample.downs 3 ++ Sample.ups 26) init.

(** Two requests, then the client closes: both loops run to their end. *)
Definition drained : list Event :=
  Connect (Sample.world [Sample.GET "/a" false; Sample.GET "/b" false])
          Sample.engine tunnel_session (Sample.ups 8 ++ Sample.downs 8).

(** * Properties *)

(** ** The stand-ins on concrete inputs *)

Example FormatInt_42 : strconv.FormatInt 42 10 = "42".
Proof. reflexivity. Qed.

Example FormatInt_neg : strconv.FormatInt (-1305) 10 = "-1305".
Proof. reflexivity. Qed.

Example FormatInt_zero : strconv.FormatInt 0 10 = "0".
Proof. reflexivity. Qed.

Example FormatInt_max : strconv.FormatInt 9223372036854775807 10 = "9223372036854775807".
Proof. vm_compute. reflexivity. Qed.

Example FormatInt_hex : strconv.FormatInt 255 16 = "ff".
Proof. reflexivity. Qed.

Example SplitHostPort_443 :
  Sample.net_SplitHostPort "secure.example.com:443" = Ok ("secure.example.com", "443").
Proof. reflexivity. Qed.

Example SplitHostPort_v6 :
  Sample.net_SplitHostPort "[fe80::abcd]:443" = Ok ("fe80::abcd", "443").
Proof. reflexivity. Qed.

Example SplitHostPort_noport :
  err_of (Sample.net_SplitHostPort "secure.example.com") =
  Some (ErrOther "address secure.example.com: missing port in address").
Proof. reflexivity. Qed.

Example SplitHostPort_colons :
  err_of (Sample.net_SplitHostPort "a:b:443") =
  Some (ErrOther "address a:b:443: too many colons in address").
Proof. reflexivity. Qed.

Example Parse_ok :
  Sample.Parse "https://secure.example.com/a?b=1" =
  Ok (url.mkURL "https" "secure.example.com" "/a" "b=1").
Proof. reflexivity. Qed.

Example Parse_bad_port :
  ptr (Sample.Parse "https://fe80::abcd/") = None.
Proof. reflexivity. Qed.


Example SplitHostPort_empty :
  err_of (Sample.net_SplitHostPort EmptyString) =
  Some (ErrOther "missing port in address").
Proof. reflexivity. Qed.

(** One exchange from the CONNECT to the teardown: the request for "/" goes
    upstream as https://secure.example.com/ and the closing response ends
    the tunnel. *)
Example end_to_end :
  let creq0 := Sample.GET "/" true in
  let creq := rewrite (Sample.world []) "secure.example.com" tunnel_session
                      creq0 in
  let cresp := Sample.reply "/" true in
  Connect (Sample.world [creq0]) Sample.engine tunnel_session
          (Sample.ups 4 ++ Sample.downs 4)
  = [EvHijack; EvDial "tcp" "127.0.0.1:1315"; EvConnWrite status200;
     EvCertsGet "secure.example.com";
     EvHandshake (mkCert "secure.example.com") "secure.example.com";
     EvReadRequest (Ok creq0); EvWriteProxy creq None; EvSend creq;
     EvChanClose;
     EvRecv (Some creq); EvReadResponse creq (Ok cresp);
     EvRespWrite cresp None;
     EvInfo "CLOSE %s" ["1ms"];
     EvBodyClose cresp; EvSconnClose; EvRconnClose; EvConnClose]
  /\ http.URL creq = Some (url.mkURL "https" "secure.example.com" "/" EmptyString)
  /\ http.Header creq !! "Mallory-Session" = Some ["7"].
Proof. vm_compute. repeat split. Qed.

(** ** Generic facts about schedules and traces *)

Section RelayFacts.
Context (w : World) (host : string) (s : Session).

(** An invariant of every step holds after every schedule. *)
Lemma run_invariant (P : Tunnel -> Prop) :
  (forall t st st', P st -> step w host s t st = Some st' -> P st') ->
  forall sched st, P st -> P (run w host s sched st).
Proof.
  intros Hstep sched. induction sched as [|t sched IH]; intros st HP; simpl.
  - exact HP.
  - apply IH. destruct (step w host s t st) as [st'|] eqn:E; simpl.
    + eapply Hstep; eauto.
    + exact HP.
Qed.

Lemma step_relay_events t st st' :
  step w host s t st = Some st' ->
  exists evs, trace st' = trace st ++ evs /\ Forall (fun ev => relay_event ev = true) evs.
Proof.
  destruct t; simpl; unfold up_step, down_step; intros H;
    repeat (match type of H with
            | context [match ?x with _ => _ end] => destruct x eqn:?
            end; simplify_eq/=);
    eexists; (split; [reflexivity|]);
    repeat case_decide;
    repeat first [apply Forall_nil_2 | apply Forall_cons_2; [reflexivity|]].
  apply Forall_app; split.
  - apply Forall_fmap, Forall_true; reflexivity.
  - repeat first [apply Forall_nil_2 | apply Forall_cons_2; [reflexivity|]].
Qed.

Lemma run_relay_events sched :
  Forall (fun ev => relay_event ev = true) (trace (run w host s sched init)).
Proof.
  apply (run_invariant (fun st => Forall (fun ev => relay_event ev = true) (trace st))).
  - intros t st st' HP Hst.
    destruct (step_relay_events _ _ _ Hst) as (evs & -> & Hevs).
    apply Forall_app; auto.
  - apply Forall_nil_2.
Qed.
End RelayFacts.

(** ** Method guards *)

(** C8. Each operation rejects the wrong method and does nothing else:
    [Serve] on a CONNECT request only reports the error (no serialisation,
    no post), and [Connect] on any other method only reports the error
    (no hijack, no dial), whatever the schedule. *)
Theorem wrong_method_rejected (w : World) (self : EngineGAE) (s : Session) :
  (http.Method (SRequest s) = "CONNECT" ->
   Serve w self s = [EvError "this function can not handle CONNECT method" []])
  /\
  (http.Method (SRequest s) ≠ "CONNECT" ->
   forall sched,
     Connect w self s sched =
     [EvError "this function can only handle CONNECT method" []]).
Proof.
  split.
  - intros Hm. unfold Serve. rewrite decide_True by done. reflexivity.
  - intros Hm sched. unfold Connect, Connect_setup.
    rewrite decide_True by done. reflexivity.
Qed.

Lemma wrong_method_rejected_witness :
  Serve (Sample.world []) Sample.engine
        (Sample.session (Sample.CONNECT "secure.example.com:443"))
  = [EvError "this function can not handle CONNECT method" []]
  /\
  Connect (Sample.world []) Sample.engine
          (Sample.session (Sample.GET "/" false)) [Up; Down]
  = [EvError "this function can only handle CONNECT method" []].
Proof.
  split.
  - apply (proj1 (wrong_method_rejected _ _ _)). reflexivity.
  - apply (proj2 (wrong_method_rejected _ _ _)). discriminate.
Defined.

(** ** The port guard *)

(** C2. A CONNECT whose port is not "443" only reports the error: the
    handler returns before the hijack and before the dial. Conversely a
    hijack or a dial occurs only when the target splits into a host and the
    port "443". *)
Theorem connect_port_guard (w : World) (self : EngineGAE) (s : Session)
    (sched : list Tid) :
  (forall host port,
      http.Method (SRequest s) = "CONNECT" ->
      SplitHostPort w (url.Host (http.URL (SRequest s))) = Ok (host, port) ->
      port ≠ "443" ->
      Connect w self s sched = [EvError "unsupported CONNECT port: %s" [port]])
  /\
  (forall ev,
      ev ∈ Connect w self s sched ->
      is_hijack_or_dial ev = true ->
      http.Method (SRequest s) = "CONNECT" /\
      exists host,
        SplitHostPort w (url.Host (http.URL (SRequest s))) = Ok (host, "443")).
Proof.
  split.
  - intros h port Hm Hsplit Hport. unfold Connect, Connect_setup.
    rewrite decide_False by (intros Hne; done).
    rewrite Hsplit, decide_True by done. reflexivity.
  - intros ev Hin Hev. unfold Connect, Connect_setup in Hin.
    destruct (decide (http.Method (SRequest s) ≠ "CONNECT")) as [|Hm].
    { apply list_elem_of_singleton in Hin. subst. discriminate. }
    apply dec_stable in Hm. split; [exact Hm|].
    destruct (SplitHostPort w _) as [[h port]|e] eqn:Hsplit.
    2:{ apply list_elem_of_singleton in Hin. subst. discriminate. }
    destruct (decide (port ≠ "443")) as [|Hport].
    { apply list_elem_of_singleton in Hin. subst. discriminate. }
    apply dec_stable in Hport. subst port. eauto.
Qed.

Lemma connect_port_guard_witness :
  Connect (Sample.world []) Sample.engine
          (Sample.session (Sample.CONNECT "secure.example.com:80")) [Up; Down]
  = [EvError "unsupported CONNECT port: %s" ["80"]]
  /\
  exists host,
    SplitHostPort (Sample.world [])
      (url.Host (http.URL (SRequest
         (Sample.session (Sample.CONNECT "secure.example.com:443")))))
    = Ok (host, "443").
Proof.
  split.
  - apply (proj1 (connect_port_guard _ _ _ _) "secure.example.com" "80");
      [reflexivity | reflexivity | discriminate].
  - apply (proj2 (connect_port_guard (Sample.world []) Sample.engine
              (Sample.session (Sample.CONNECT "secure.example.com:443")) [])
              EvHijack).
    + vm_compute. apply list_elem_of_here.
    + reflexivity.
Defined.

(** ** The 200 acknowledgement *)

(** C4. When the port check, the hijack and the dial succeed, the handler
    writes exactly the bytes of "HTTP/1.1 200 OK\r\n\r\n" on the hijacked
    connection, once: right after the dial and right before the lookup in
    the certificate pool; the handshake and everything else come later and
    never write on that connection again. *)
Theorem connect_acknowledges (w : World) (self : EngineGAE) (s : Session)
    (sched : list Tid) (host : string) :
  http.Method (SRequest s) = "CONNECT" ->
  SplitHostPort w (url.Host (http.URL (SRequest s))) = Ok (host, "443") ->
  Hijacker w = true ->
  Hijack w = None ->
  Dial w "tcp" (Addr (Env_ self)) = None ->
  (exists rest,
      Connect w self s sched =
      [EvHijack; EvDial "tcp" (Addr (Env_ self));
       EvConnWrite status200; EvCertsGet host] ++ rest
      /\ forall ev, ev ∈ rest -> is_pre_handshake ev = false)
  /\ map nat_of_ascii (String.list_ascii_of_string status200) =
     [72; 84; 84; 80; 47; 49; 46; 49; 32; 50; 48; 48; 32; 79; 75; 13; 10; 13; 10].
Proof.
  intros Hm Hsplit Hhij Hh Hd. split; [|reflexivity].
  unfold Connect, Connect_setup.
  rewrite decide_False by (intros Hne; done).
  rewrite Hsplit, decide_False by (intros Hne; done).
  rewrite Hhij, Hh, Hd. simpl.
  destruct (Certs_Get w host) as [cert|e].
  2:{ eexists; split; [reflexivity|]. intros ev Hin.
      repeat (apply elem_of_cons in Hin as [->|Hin]; [reflexivity|]).
      by apply elem_of_nil in Hin. }
  destruct (Handshake w cert host) as [e|].
  { eexists; split; [reflexivity|]. intros ev Hin.
    repeat (apply elem_of_cons in Hin as [->|Hin]; [reflexivity|]).
    by apply elem_of_nil in Hin. }
  eexists; split; [reflexivity|]. intros ev Hin.
  apply elem_of_cons in Hin as [->|Hin]; [reflexivity|].
  pose proof (run_relay_events w host s sched) as Hall.
  rewrite Forall_forall in Hall. specialize (Hall _ Hin).
  by destruct ev.
Qed.

Lemma connect_acknowledges_witness :
  exists rest,
    Connect (Sample.world [Sample.GET "/" true]) Sample.engine
            (Sample.session (Sample.CONNECT "secure.example.com:443"))
            [Up; Up; Up; Up; Down; Down; Down; Down]
    = [EvHijack; EvDial "tcp" "127.0.0.1:1315";
       EvConnWrite status200; EvCertsGet "secure.example.com"] ++ rest
    /\ forall ev, ev ∈ rest -> is_pre_handshake ev = false.
Proof.
  apply (connect_acknowledges (Sample.world [Sample.GET "/" true])
           Sample.engine
           (Sample.session (Sample.CONNECT "secure.example.com:443"))
           [Up; Up; Up; Up; Down; Down; Down; Down] "secure.example.com");
    reflexivity.
Defined.

(** ** Response order *)

Section Order.
Context (w : World) (host : string) (s : Session).

Lemma sent_upstream_app tr evs :
  sent_upstream (tr ++ evs) = sent_upstream tr ++ sent_upstream evs.
Proof. apply omap_app. Qed.

Lemma received_app tr evs : received (tr ++ evs) = received tr ++ received evs.
Proof. apply omap_app. Qed.

Lemma down_io_app tr evs : down_io (tr ++ evs) = down_io tr ++ down_io evs.
Proof. apply omap_app. Qed.

Lemma down_io_closes l :
  down_io (map EvBodyClose l ++ [EvSconnClose; EvRconnClose; EvConnClose]) = [].
Proof. induction l as [|x l IH]; simpl; [reflexivity | exact IH]. Qed.

Lemma received_closes l :
  received (map EvBodyClose l ++ [EvSconnClose; EvRconnClose; EvConnClose]) = [].
Proof. induction l as [|x l IH]; simpl; [reflexivity | exact IH]. Qed.

Lemma sent_upstream_closes l :
  sent_upstream (map EvBodyClose l ++ [EvSconnClose; EvRconnClose; EvConnClose]) = [].
Proof. induction l as [|x l IH]; simpl; [reflexivity | exact IH]. Qed.

Lemma accounted_step t st st' :
  accounted st -> step w host s t st = Some st' -> accounted st'.
Proof.
  unfold accounted, unpublished. intros Hacc Hst.
  destruct t; simpl in Hst; unfold up_step, down_step in Hst.
  - destruct (up st) as [|creq e|creq| |] eqn:Hup;
      repeat (match type of Hst with
              | context [match ?x with _ => _ end] => destruct x eqn:?
              end);
      simplify_eq/=;
      rewrite sent_upstream_app, received_app, Hacc; simpl;
      rewrite ?app_nil_r, <- ?app_assoc; simpl;
      try done; by destruct (http.Close creq).
  - destruct (down st) as [|creq|cresp| |] eqn:Hdown;
      repeat (match type of Hst with
              | context [match ?x with _ => _ end] => destruct x eqn:?
              end);
      simplify_eq/=;
      rewrite sent_upstream_app, received_app, Hacc; simpl;
      rewrite ?sent_upstream_closes, ?received_closes;
      rewrite ?app_nil_r, <- ?app_assoc; simpl;
      try (match goal with H : rch st = _ |- _ => rewrite H end);
      try done; by destruct (http.RespClose cresp).
Qed.

Lemma served_up_step st st' :
  served_in_order w st -> up_step w host s st = Some st' ->
  served_in_order w st'.
Proof.
  unfold served_in_order, up_step. intros Hs Hst.
  assert (down st' = down st /\ dj st' = dj st /\
          received (trace st') = received (trace st) /\
          down_io (trace st') = down_io (trace st)) as (-> & -> & -> & ->);
    [|exact Hs].
  destruct (up st) as [|creq e|creq| |];
    repeat (match type of Hst with
            | context [match ?x with _ => _ end] => destruct x eqn:?
            end);
    simplify_eq/=; rewrite received_app, down_io_app; simpl;
    by rewrite !app_nil_r.
Qed.

Lemma served_down_step st st' :
  served_in_order w st -> down_step w st = Some st' -> served_in_order w st'.
Proof.
  unfold served_in_order, down_step. intros Hs Hst.
  destruct (down st) as [|creq|cresp| |] eqn:Hdown.
  - (* creq, ok := <-rch *)
    destruct (rch st) as [|creq q].
    + destruct (rch_closed st); simplify_eq/=.
      intros tail. rewrite received_app, down_io_app; simpl.
      rewrite !app_nil_r, Hs. by apply prefix_app_r.
    + simplify_eq/=. exists (received (trace st)).
      rewrite received_app, down_io_app; simpl. rewrite app_nil_r.
      split; [done|]. intros tail. apply Hs.
  - (* http.ReadResponse *)
    destruct Hs as (done & Hrecv & Hs).
    destruct (ReadResponse w (dj st) creq) as [cresp|e] eqn:Hr; simplify_eq/=.
    + exists done, creq. rewrite received_app, down_io_app; simpl.
      rewrite app_nil_r. split; [done|]. intros tail.
      rewrite Hs; simpl. rewrite Hr. by rewrite <- app_assoc.
    + intros tail. rewrite received_app, down_io_app; simpl.
      rewrite app_nil_r, Hrecv, <- app_assoc; simpl.
      rewrite Hs; simpl. by rewrite Hr.
  - (* cresp.Write *)
    destruct Hs as (done & creq & Hrecv & Hs).
    destruct (Response_Write w (dj st) cresp) as [e|] eqn:Hw; simplify_eq/=.
    + intros tail. rewrite received_app, down_io_app.
      case_decide; simpl;
        rewrite app_nil_r, Hrecv, <- app_assoc; simpl;
        rewrite Hs; unfold then_write; by rewrite Hw.
    + destruct (http.RespClose cresp) eqn:Hc; simpl;
        intros tail; rewrite received_app, down_io_app; simpl;
        rewrite app_nil_r, Hrecv, <- app_assoc; simpl;
        rewrite Hs; unfold then_write; rewrite Hw, Hc.
      * done.
      * by rewrite <- app_assoc.
  - (* return *)
    simplify_eq/=. intros tail. rewrite received_app, down_io_app; simpl.
    rewrite received_closes, down_io_closes, !app_nil_r. apply Hs.
  - done.
Qed.

Lemma in_order_invariant sched :
  accounted (run w host s sched init) /\
  served_in_order w (run w host s sched init).
Proof.
  apply (run_invariant w host s
           (fun st => accounted st /\ served_in_order w st)).
  - intros t st st' [Ha Hs] Hst. split; [by eapply accounted_step|].
    destruct t; [by eapply served_up_step | by eapply served_down_step].
  - split; [reflexivity|]. intros tail. reflexivity.
Qed.

End Order.

Lemma setup_no_relay_io (w : World) (self : EngineGAE) (s : Session) :
  down_io (Connect_setup w self s).1 = [] /\
  sent_upstream (Connect_setup w self s).1 = [].
Proof.
  unfold Connect_setup.
  repeat (match goal with
          | |- context [match ?x with _ => _ end] => destruct x
          end; simpl; try done).
Qed.


Example pipelined_bodies : written_bodies pipelined = ["/a"; "/b"; "/c"].
Proof. vm_compute. reflexivity. Qed.


(** ** The bounded queue *)

Section Queue.
Context (w : World) (host : string) (s : Session).

Lemma rch_bounded sched : length (rch (run w host s sched init)) <= 8.
Proof.
  apply (run_invariant w host s (fun st => length (rch st) <= 8)); [|simpl; lia].
  intros t st st' Hle Hst.
  destruct t; simpl in Hst; unfold up_step, down_step in Hst;
    repeat (match type of Hst with
            | context [match ?x with _ => _ end] => destruct x eqn:?
            end);
    simplify_eq/=;
    try (match goal with H : rch st = _ |- _ => rewrite H end);
    rewrite ?length_app; unfold rch_cap in *; simpl; lia.
Qed.

(** The upstream goroutine cannot move exactly when it has finished or
    when it stands at the send with eight requests queued. *)
Lemma up_blocked st :
  up_step w host s st = None <->
  up st = UDone \/ exists creq, up st = USend creq /\ 8 <= length (rch st).
Proof.
  unfold up_step. split.
  - intros H.
    destruct (up st) as [|creq e|creq| |];
      repeat (match type of H with
              | context [match ?x with _ => _ end] => destruct x eqn:?
              end);
      simplify_eq/=; eauto.
    right. exists creq. unfold rch_cap in *. split; [done|lia].
  - intros [->|(creq & -> & Hfull)]; [done|].
    rewrite decide_False; [done|]. unfold rch_cap. lia.
Qed.
End Queue.

(** With eight requests queued and none taken out, the loop goes on: it
    reads the ninth request and writes it to the backend, and is blocked
    only at the send. *)
Lemma stops_reading_at_eight_fails : ~ stops_reading_at_eight.
Proof.
  intros H.
  assert (up_step (Sample.world nine_requests) "secure.example.com"
            tunnel_session
            (run (Sample.world nine_requests) "secure.example.com"
               tunnel_session (Sample.ups 24) init) = None) as E.
  { apply (H (Sample.world nine_requests) "secure.example.com"
             tunnel_session (Sample.ups 24)).
    vm_compute. reflexivity. }
  apply up_blocked in E as [E|(creq & E & _)]; vm_compute in E; discriminate.
Qed.

Example ninth_request_forwarded :
  length (rch (flooded 30)) = 8 /\ received (trace (flooded 30)) = [] /\
  length (sent_upstream (trace (flooded 30))) = 9 /\
  up_step (Sample.world nine_requests) "secure.example.com" tunnel_session
          (flooded 30) = None.
Proof. vm_compute. repeat split. Qed.

(** C3 (amended). The queue never holds more than eight requests. The
    upstream loop is blocked only at the send on a queue that already
    holds eight, that is after it has read one more request and written it
    to the backend; reading and forwarding are never held back by the
    queue. While blocked it stays blocked whatever else the downstream loop
    does, and it can publish again as soon as the downstream loop has taken
    a request out. *)
Theorem queue_bounded_backpressure (w : World) (host : string) (s : Session)
    (sched : list Tid) :
  let st := run w host s sched init in
  length (rch st) <= 8 /\
  (up_step w host s st = None <->
   up st = UDone \/ exists creq, up st = USend creq /\ length (rch st) = 8) /\
  (forall creq st',
      up st = USend creq -> length (rch st) = 8 ->
      down_step w st = Some st' ->
      match down st with
      | DRecv => exists st'', up_step w host s st' = Some st'' /\
                              rch st'' = drop 1 (rch st) ++ [creq]
      | _ => up_step w host s st' = None
      end).
Proof.
  intros st. pose proof (rch_bounded w host s sched) as Hle. fold st in Hle.
  split; [exact Hle|]. split.
  - rewrite up_blocked. split.
    + intros [?|(creq & ? & ?)]; [by left|]. right. exists creq. split; [done|lia].
    + intros [?|(creq & ? & ?)]; [by left|]. right. exists creq. split; [done|lia].
  - intros creq st' Hup Hfull Hst. unfold down_step in Hst.
    destruct (down st) as [|c|cresp| |] eqn:Hd.
    + destruct (rch st) as [|c q] eqn:Hq; [done|].
      simplify_eq/=. unfold up_step; simpl. rewrite Hup.
      rewrite decide_True by (unfold rch_cap; lia).
      eexists; split; [reflexivity|]. simpl. by rewrite drop_0.
    + apply up_blocked. right. exists creq.
      destruct (ReadResponse w (dj st) c); simplify_eq/=; (split; [done|lia]).
    + apply up_blocked. right. exists creq.
      destruct (Response_Write w (dj st) cresp); simplify_eq/=;
        (split; [done|lia]).
    + apply up_blocked. right. exists creq. simplify_eq/=. split; [done|lia].
    + done.
Qed.

Lemma queue_bounded_backpressure_witness :
  up_step (Sample.world nine_requests) "secure.example.com" tunnel_session
          (flooded 30) = None.
Proof.
  apply (proj1 (proj2 (queue_bounded_backpressure
                         (Sample.world nine_requests) "secure.example.com"
                         tunnel_session (Sample.ups 30)))).
  right. vm_compute. eexists. split; reflexivity.
Defined.

(** ** The forwarded request *)

Section Forwarded.
Context (w : World) (host : string) (s : Session).

Lemma forwarded_rewritten_step t st st' :
  forwarded_rewritten w host s st -> step w host s t st = Some st' ->
  forwarded_rewritten w host s st'.
Proof.
  unfold forwarded_rewritten, unpublished. intros (Hall & Hlen & Hpc) Hst.
  destruct t; simpl in Hst; unfold up_step, down_step in Hst.
  - destruct (up st) as [|creq e|creq| |] eqn:Hup.
    + destruct (ReadRequest w (ui st)) as [creq0|e] eqn:Hr; simplify_eq/=;
        rewrite sent_upstream_app;
        [|case_decide]; simpl; rewrite app_nil_r;
        (split; [done|]); (split; [done|]); intros creq' e' [=]; subst.
      by exists creq0.
    + destruct (Hpc creq e eq_refl) as (creq0 & Hr & ->).
      destruct (WriteProxy w (ui st) _) as [e'|] eqn:Hw; simplify_eq/=;
        rewrite sent_upstream_app; simpl; rewrite ?app_nil_r.
      * split; [done|]. split; [done|]. intros ? ? [=].
      * split; [|split; [rewrite length_app; simpl; lia | intros ? ? [=]]].
        intros i creq Hi. apply lookup_app_Some in Hi as [Hi|[Hge Hi]].
        { by apply Hall. }
        apply list_lookup_singleton_Some in Hi as [Hi <-].
        exists creq0. split; [|done].
        by replace i with (ui st) by lia.
    + case_decide; simplify_eq/=.
      rewrite sent_upstream_app; simpl; rewrite app_nil_r.
      split; [done|].
      split; [destruct (http.Close creq); simpl; lia|].
      intros ? ?. by destruct (http.Close creq).
    + simplify_eq/=. rewrite sent_upstream_app; simpl; rewrite app_nil_r.
      split; [done|]. split; [done|]. intros ? ? [=].
    + done.
  - assert (up st' = up st /\ ui st' = ui st /\
            sent_upstream (trace st') = sent_upstream (trace st))
      as (-> & -> & ->); [|done].
    destruct (down st) as [|creq|cresp| |];
      repeat (match type of Hst with
              | context [match ?x with _ => _ end] => destruct x eqn:?
              end);
      simplify_eq/=; rewrite sent_upstream_app; simpl;
      rewrite ?sent_upstream_closes; by rewrite app_nil_r.
Qed.

Lemma forwarded_rewritten_run sched :
  forwarded_rewritten w host s (run w host s sched init).
Proof.
  apply (run_invariant w host s (forwarded_rewritten w host s)).
  - intros t st st'. apply forwarded_rewritten_step.
  - split; [intros i creq H; simpl in H; done|].
    split; [reflexivity|]. intros ? ? [=].
Qed.
End Forwarded.

Lemma setup_host (w : World) (self : EngineGAE) (s : Session) pre host cert :
  Connect_setup w self s = (pre, Some (host, cert)) ->
  SplitHostPort w (url.Host (http.URL (SRequest s))) = Ok (host, "443").
Proof.
  unfold Connect_setup. intros H.
  repeat (match type of H with
          | context [match ?x with _ => _ end] => destruct x eqn:?
          end; simplify_eq/=).
  match goal with
  | H : ¬ ?p ≠ "443" |- _ => by rewrite (dec_stable H)
  end.
Qed.

(** C5. Every request the tunnel writes to the backend is a request read
    from the client (the [i]-th written is the [i]-th read) whose URL has
    been replaced by the parse of "https://" + host + the original
    request-URI, [host] being the host of the CONNECT target, and whose
    header Mallory-Session holds exactly the decimal session id; nothing
    else of the request changes, and it is this request that WriteProxy
    serialises on the backend connection. *)
Theorem forwarded_request_rewritten (w : World) (self : EngineGAE)
    (s : Session) (sched : list Tid) (i : nat) (creq : ProxyRequest) :
  sent_upstream (Connect w self s sched) !! i = Some creq ->
  exists host creq0,
    SplitHostPort w (url.Host (http.URL (SRequest s))) = Ok (host, "443") /\
    ReadRequest w i = Ok creq0 /\
    http.URL creq =
      ptr (url_Parse w ("https://" +:+ host +:+ URL_String w (http.URL creq0))) /\
    http.Header creq !! "Mallory-Session" = Some [strconv.FormatInt (ID s) 10] /\
    (forall k, k ≠ "Mallory-Session" ->
               http.Header creq !! k = http.Header creq0 !! k) /\
    http.Method creq = http.Method creq0 /\
    http.Host creq = http.Host creq0 /\
    http.Close creq = http.Close creq0 /\
    EvWriteProxy creq None ∈ Connect w self s sched.
Proof.
  intros Hi.
  assert (EvWriteProxy creq None ∈ Connect w self s sched) as Hin.
  { apply list_elem_of_lookup_2 in Hi. unfold sent_upstream in Hi.
    apply list_elem_of_omap in Hi as (ev & Hev & Hsome).
    destruct ev as [| | | | | | | |c [e|]| | | | | | | | | | | | |]; simplify_eq/=.
    exact Hev. }
  unfold Connect in *.
  destruct (setup_no_relay_io w self s) as [_ Hsent].
  destruct (Connect_setup w self s) as [pre [[host cert]|]] eqn:Hsetup;
    simpl in *.
  2:{ by rewrite Hsent, lookup_nil in Hi. }
  rewrite sent_upstream_app, Hsent in Hi. simpl in Hi.
  destruct (forwarded_rewritten_run w host s sched) as (Hall & _).
  destruct (Hall i creq Hi) as (creq0 & Hr & ->).
  exists host, creq0. split; [by eapply setup_host|]. split; [done|].
  unfold rewrite, rewritten_url; simpl.
  split; [done|]. split; [by rewrite lookup_insert_eq|].
  split; [intros k Hk; by rewrite lookup_insert_ne|]. done.
Qed.

Lemma forwarded_request_rewritten_witness :
  exists host creq0,
    SplitHostPort (Sample.world [Sample.GET "/a" false; Sample.GET "/b" false;
                                 Sample.GET "/c" true])
      (url.Host (http.URL (SRequest tunnel_session))) = Ok (host, "443") /\
    ReadRequest (Sample.world [Sample.GET "/a" false; Sample.GET "/b" false;
                               Sample.GET "/c" true]) 1 = Ok creq0 /\
    Some (url.mkURL "https" "secure.example.com" "/b" EmptyString) =
      ptr (Sample.Parse ("https://" +:+ host +:+ Sample.String_ (http.URL creq0))).
Proof.
  destruct (forwarded_request_rewritten
              (Sample.world [Sample.GET "/a" false; Sample.GET "/b" false;
                             Sample.GET "/c" true])
              Sample.engine tunnel_session
              (Sample.ups 12 ++ Sample.downs 12) 1
              (rewrite (Sample.world []) "secure.example.com" tunnel_session
                       (Sample.GET "/b" false)))
    as (host & creq0 & Hsplit & Hread & Hurl & _).
  - vm_compute. reflexivity.
  - exists host, creq0. split; [exact Hsplit|]. split; [exact Hread|].
    exact Hurl.
Defined.

(** ** The discarded parse error *)

(** C10. When the parse of the rewritten URL fails, nothing is reported
    and the loop does not stop: the request keeps a nil URL, the local
    [err] holds the parse error only until WriteProxy overwrites it, and
    the next thing the loop does is to serialise that request with its nil
    URL; how it goes on depends on the result of WriteProxy alone. *)
Theorem parse_error_discarded (w : World) (host : string) (s : Session)
    (st : Tunnel) (creq0 : Request) (e : error) :
  up st = URead ->
  ReadRequest w (ui st) = Ok creq0 ->
  url_Parse w ("https://" +:+ host +:+ URL_String w (http.URL creq0)) = Err e ->
  exists creq st1 st2,
    http.URL creq = None /\
    up_step w host s st = Some st1 /\
    up st1 = UWriteProxy creq (Some e) /\
    trace st1 = trace st ++ [EvReadRequest (Ok creq0)] /\
    up_step w host s st1 = Some st2 /\
    trace st2 = trace st1 ++
                EvWriteProxy creq (WriteProxy w (ui st) creq) ::
                match WriteProxy w (ui st) creq with
                | Some e' => [EvError "WriteProxy: %s" [Error e']]
                | None => []
                end /\
    up st2 = match WriteProxy w (ui st) creq with
             | Some _ => UBreak
             | None => USend creq
             end /\
    forall err',
      up_step w host s (set_up (UWriteProxy creq err') st1) =
      up_step w host s st1.
Proof.
  intros Hup Hread Hparse.
  set (creq := rewrite w host s creq0).
  set (st1 := set_up (UWriteProxy creq (Some e))
                (emit [EvReadRequest (Ok creq0)] st)).
  assert (up_step w host s st = Some st1) as Hs1.
  { unfold up_step. rewrite Hup, Hread. unfold rewritten_url.
    by rewrite Hparse. }
  assert (http.URL creq = None) as Hnil.
  { unfold creq, rewrite, rewritten_url; simpl. by rewrite Hparse. }
  exists creq, st1.
  destruct (WriteProxy w (ui st) creq) as [e'|] eqn:Hw.
  - exists (set_up UBreak
              (emit [EvWriteProxy creq (Some e');
                     EvError "WriteProxy: %s" [Error e']] st1)).
    split_and!; try done.
    + unfold up_step; simpl. by rewrite Hw.
  - exists (set_up (USend creq) (emit [EvWriteProxy creq None] st1)).
    split_and!; try done.
    + unfold up_step; simpl. by rewrite Hw.
Qed.

Lemma parse_error_discarded_witness :
  exists creq st1 st2,
    http.URL creq = None /\
    up_step (Sample.world [Sample.GET "/" false]) "fe80::abcd" v6_session init
      = Some st1 /\
    up_step (Sample.world [Sample.GET "/" false]) "fe80::abcd" v6_session st1
      = Some st2 /\
    up st2 = USend creq.
Proof.
  destruct (parse_error_discarded (Sample.world [Sample.GET "/" false])
              "fe80::abcd" v6_session init (Sample.GET "/" false)
              (ErrOther "parse https://fe80::abcd/: invalid port after host"))
    as (creq & st1 & st2 & Hnil & Hs1 & _ & _ & Hs2 & _ & Hup2 & _).
  - reflexivity.
  - reflexivity.
  - reflexivity.
  - exists creq, st1, st2. split; [exact Hnil|]. split; [exact Hs1|].
    split; [exact Hs2|]. exact Hup2.
Defined.

Example nil_url_reaches_backend :
  omap (fun ev => match ev with
                  | EvWriteProxy creq err => Some (http.URL creq, err)
                  | _ => None
                  end)
       (Connect (Sample.world [Sample.GET "/" false]) Sample.engine v6_session
                [Up; Up; Up])
  = [(None, None)]
  /\ Forall (fun ev => is_error ev = false)
       (Connect (Sample.world [Sample.GET "/" false]) Sample.engine v6_session
                [Up; Up; Up]).
Proof. split; [vm_compute; reflexivity|]. vm_compute. repeat constructor. Qed.

(** ** How the upstream loop ends *)

Section Upstream.
Context (w : World) (host : string) (s : Session).



Lemma closed_iff_done sched :
  rch_closed (run w host s sched init) = true <->
  up (run w host s sched init) = UDone.
Proof.
  apply (run_invariant w host s
           (fun st => rch_closed st = true <-> up st = UDone)); [|done].
  intros t st st' Hinv Hst.
  destruct t; simpl in Hst; unfold up_step, down_step in Hst.
  - destruct (up st) as [|creq err|creq| |] eqn:Hup;
      repeat (match type of Hst with
              | context [match ?x with _ => _ end] => destruct x eqn:?
              end);
      simplify_eq/=; try done;
      (split; [intros Hc; apply Hinv in Hc; done | done]).
  - assert (up st' = up st /\ rch_closed st' = rch_closed st)
      as [-> ->]; [|done].
    destruct (down st) as [|creq|cresp| |];
      repeat (match type of Hst with
              | context [match ?x with _ => _ end] => destruct x eqn:?
              end);
      by simplify_eq/=.
Qed.
End Upstream.



(** ** How the downstream loop ends *)

Section Downstream.
Context (w : World).


End Downstream.

Example backend_eof_logged :
  drop 8 (backend_eof_trace EOF) =
  [EvRecv (Some (rewrite (Sample.world []) "secure.example.com" tunnel_session
                         (Sample.GET "/" false)));
   EvReadResponse (rewrite (Sample.world []) "secure.example.com"
                           tunnel_session (Sample.GET "/" false)) (Err EOF);
   EvError "ReadResponse: %s" ["EOF"];
   EvInfo "CLOSE %s" ["1ms"];
   EvSconnClose; EvRconnClose; EvConnClose].
Proof. vm_compute. reflexivity. Qed.

Example backend_unexpected_eof_logged :
  filter (fun ev => is_error ev = true) (backend_eof_trace ErrUnexpectedEOF) =
  [EvError "ReadResponse: %s" ["unexpected EOF"]].
Proof. vm_compute. reflexivity. Qed.




(** ** The plain relay *)

Example debug_relay :
  Serve (Sample.world []) debug_engine plain_session =
  [EvPost "http://localhost:8080/http" "application/data"
          ("GET http://example.com/ HTTP/1.1" +:+ CRLF +:+ CRLF);
   EvCopyHeader (Sample.reply ("GET http://example.com/ HTTP/1.1" +:+ CRLF +:+ CRLF) false);
   EvWriteHeader 200;
   EvCopy (Sample.reply ("GET http://example.com/ HTTP/1.1" +:+ CRLF +:+ CRLF) false) None;
   EvInfo "RESPONSE %s %s" ["200 OK"; "1ms"];
   EvBodyClose (Sample.reply ("GET http://example.com/ HTTP/1.1" +:+ CRLF +:+ CRLF) false);
   EvBodyClose (Sample.reply ("GET http://example.com/ HTTP/1.1" +:+ CRLF +:+ CRLF) false)].
Proof. vm_compute. reflexivity. Qed.

(** With the application configured as "debug" a request is relayed with
    success through a post to http://localhost:8080/http, in clear. *)
Lemma posts_over_https_fails : ~ posts_over_https.
Proof.
  intros H.
  specialize (H (Sample.world []) debug_engine plain_session
                "http://localhost:8080/http" "application/data"
                ("GET http://example.com/ HTTP/1.1" +:+ CRLF +:+ CRLF)).
  assert (String.prefix "https://" "http://localhost:8080/http" = true) as Hp.
  { apply H. rewrite debug_relay. apply list_elem_of_here. }
  vm_compute in Hp. discriminate.
Qed.

(** C9 (amended). A request that is not a CONNECT is serialised in proxy
    form and posted, as application/data, to the upstream endpoint: the
    application's /http handler over https, except that the application
    name "debug" selects http://localhost:8080/http over plain http. When
    every step succeeds the embedded response is read from the reply, its
    headers are copied, then its status code is written, then its body is
    copied to the client, and the completion is recorded. When a step
    fails (the serialisation, the post, a 500 from the upstream, the read
    of the embedded response, the copy of the body) exactly that failure
    is reported through the session and nothing follows but the deferred
    closes: no further write to the client and no completion record. *)
Theorem serve_relays (w : World) (self : EngineGAE) (s : Session) :
  http.Method (SRequest s) ≠ "CONNECT" ->
  let r := SRequest s in
  let tr := Serve w self s in
  upstream_url self =
    (if decide (AppSpot (Env_ self) = "debug")
     then "http://localhost:8080/http"
     else "https://" +:+ AppSpot (Env_ self) +:+ ".appspot.com/http")
  /\
  ((exists buf resp cres,
       WriteProxy_buf w r = Ok buf /\
       Post w (upstream_url self) "application/data" buf = Ok resp /\
       http.StatusCode resp ≠ 500%Z /\
       ReadResponse_body w (http.Body resp) r = Ok cres /\
       Copy w cres = None /\
       tr = [EvPost (upstream_url self) "application/data" buf;
             EvCopyHeader cres;
             EvWriteHeader (http.StatusCode cres);
             EvCopy cres None;
             EvInfo "RESPONSE %s %s" [http.Status resp; Since w];
             EvBodyClose cres; EvBodyClose resp])
   \/
   (exists pre format args closes,
       tr = pre ++ EvError format args :: closes /\
       Forall (fun ev => is_error ev = false /\ is_info ev = false) pre /\
       Forall (fun ev => is_body_close ev = true) closes /\
       (pre = [] /\ is_Some (err_of (WriteProxy_buf w r))
        \/ (exists buf,
               WriteProxy_buf w r = Ok buf /\
               pre = [EvPost (upstream_url self) "application/data" buf] /\
               match Post w (upstream_url self) "application/data" buf with
               | Err _ => True
               | Ok resp =>
                   http.StatusCode resp = 500%Z \/
                   is_Some (err_of (ReadResponse_body w (http.Body resp) r))
               end)
        \/ (exists buf resp cres e,
               WriteProxy_buf w r = Ok buf /\
               Post w (upstream_url self) "application/data" buf = Ok resp /\
               ReadResponse_body w (http.Body resp) r = Ok cres /\
               Copy w cres = Some e /\
               pre = [EvPost (upstream_url self) "application/data" buf;
                      EvCopyHeader cres;
                      EvWriteHeader (http.StatusCode cres);
                      EvCopy cres (Some e)])))).
Proof.
  intros Hm r tr. split; [reflexivity|].
  subst tr. unfold Serve. fold r. rewrite decide_False by done.
  destruct (WriteProxy_buf w r) as [buf|e] eqn:Hb.
  2:{ right. exists [], "WriteProxy: %s", [Error e], [].
      split_and!; try done. left. split; [done|]. by eexists. }
  destruct (Post w (upstream_url self) "application/data" buf) as [resp|e] eqn:Hp.
  2:{ right. eexists [_], _, _, []. split; [reflexivity|].
      split_and!; [by repeat constructor | done |].
      right; left. exists buf. rewrite Hp. done. }
  case_decide as Hcode.
  { right. eexists [_], _, _, [_]. split; [reflexivity|].
    split_and!; [by repeat constructor | by repeat constructor |].
    right; left. exists buf. rewrite Hp. split_and!; try done. by left. }
  destruct (ReadResponse_body w (http.Body resp) r) as [cres|e] eqn:Hr.
  2:{ right. eexists [_], _, _, [_]. split; [reflexivity|].
      split_and!; [by repeat constructor | by repeat constructor |].
      right; left. exists buf. rewrite Hp, Hr. split_and!; try done.
      right. by eexists. }
  destruct (Copy w cres) as [e|] eqn:Hc.
  - right. eexists [_; _; _; _], _, _, [_; _]. split; [reflexivity|].
    split_and!; [by repeat constructor | by repeat constructor |].
    right; right. exists buf, resp, cres, e. by rewrite Hr.
  - left. exists buf, resp, cres. by rewrite Hr.
Qed.

Lemma serve_relays_witness :
  upstream_url Sample.engine = "https://mallory.appspot.com/http" /\
  upstream_url debug_engine = "http://localhost:8080/http".
Proof.
  split.
  - rewrite (proj1 (serve_relays (Sample.world []) Sample.engine plain_session
                      ltac:(discriminate))).
    reflexivity.
  - rewrite (proj1 (serve_relays (Sample.world []) debug_engine plain_session
                      ltac:(discriminate))).
    reflexivity.
Defined.


(** ** Bookkeeping of the relay *)

Lemma omap_body_closes {B} (f : Event -> option B) (l : list Response) :
  (forall r, f (EvBodyClose r) = None) -> omap f (map EvBodyClose l) = [].
Proof.
  intros Hf. induction l as [|r l IH]; simpl; [done|]. by rewrite Hf.
Qed.

Section Bookkeeping.
Context (w : World) (host : string) (s : Session).

Lemma parsed_app tr evs : parsed (tr ++ evs) = parsed tr ++ parsed evs.
Proof. apply omap_app. Qed.

Lemma published_app tr evs : published (tr ++ evs) = published tr ++ published evs.
Proof. apply omap_app. Qed.

Lemma answered_app tr evs : answered (tr ++ evs) = answered tr ++ answered evs.
Proof. apply omap_app. Qed.

Lemma responses_read_app tr evs :
  responses_read (tr ++ evs) = responses_read tr ++ responses_read evs.
Proof. apply omap_app. Qed.

Lemma chan_ops_app tr evs : chan_ops (tr ++ evs) = chan_ops tr ++ chan_ops evs.
Proof. apply omap_app. Qed.

Lemma releases_app tr evs : releases (tr ++ evs) = releases tr ++ releases evs.
Proof. apply omap_app. Qed.

Lemma saw_closed_app tr evs :
  saw_closed (tr ++ evs) = saw_closed tr || saw_closed evs.
Proof. apply existsb_app. Qed.

Lemma closing_quiet fmt args l :
  let evs := EvInfo fmt args ::
             map EvBodyClose l ++ [EvSconnClose; EvRconnClose; EvConnClose] in
  parsed evs = [] /\ published evs = [] /\ received evs = [] /\
  answered evs = [] /\ chan_ops evs = [] /\ saw_closed evs = false /\
  sent_upstream evs = [] /\ responses_read evs = [] /\ down_io evs = [].
Proof.
  induction l as [|r l IH]; simpl in *; [done|]. exact IH.
Qed.

Lemma bookkeeping_step t st st' :
  bookkeeping st -> step w host s t st = Some st' -> bookkeeping st'.
Proof.
  unfold bookkeeping.
  intros (Hpub & Hui & Hdj & Hrecv & Hparsed & Hclosed & Hops & Hsaw) Hst.
  step_cases t st Hst.
  all: rewrite ?parsed_app, ?published_app, ?received_app, ?answered_app,
         ?chan_ops_app, ?saw_closed_app.
  all: try (destruct (closing_quiet "CLOSE %s" [Since w] (deferred st))
              as (-> & -> & -> & -> & -> & -> & _)).
  all: repeat case_decide.
  all: cbn [parsed published received answered chan_ops saw_closed omap
            list_omap existsb app length].
  all: rewrite ?app_nil_r, ?orb_false_r, ?length_app.
  all: try (match goal with H : rch _ = _ |- _ => rewrite H end).
  all: try (match goal with H : rch_closed _ = _ |- _ => rewrite H end).
  all: split_and!.
  all: try first
         [ done
         | simpl; lia
         | by rewrite Hpub, <- ?app_assoc
         | exact Hclosed
         | by (split; [intros Hc; apply Hclosed in Hc|])
         | by (intros Hs; destruct (Hsaw Hs) as (? & Hc & ? & ?);
               try apply Hclosed in Hc)
         | (assert (rch_closed st = false) as Hc
              by (apply not_true_is_false; intros Hc; by apply Hclosed in Hc);
            rewrite Hops, Hc, ?app_nil_r; simpl;
            by rewrite ?app_nil_r, <- ?replicate_S_end) ].
Qed.

Lemma bookkeeping_run sched : bookkeeping (run w host s sched init).
Proof.
  apply (run_invariant w host s bookkeeping).
  - intros t st st'. apply bookkeeping_step.
  - unfold bookkeeping; simpl. split_and!; try done.
Qed.
End Bookkeeping.

(** Nothing of the relay shows before the handshake has succeeded. *)
Lemma setup_quiet (w : World) (self : EngineGAE) (s : Session) :
  let pre := (Connect_setup w self s).1 in
  parsed pre = [] /\ published pre = [] /\ received pre = [] /\
  answered pre = [] /\ chan_ops pre = [] /\ saw_closed pre = false /\
  sent_upstream pre = [] /\ responses_read pre = [] /\
  Forall (fun ev => is_relay_io ev = false) pre.
Proof.
  unfold Connect_setup.
  repeat (match goal with
          | |- context [match ?x with _ => _ end] => destruct x
          end; simpl; try by (split_and!; try done; repeat constructor)).
Qed.

(** The two shapes of a run of the handler. *)
Lemma Connect_view (w : World) (self : EngineGAE) (s : Session) sched :
  (exists pre host cert,
      Connect_setup w self s = (pre, Some (host, cert)) /\
      Connect w self s sched = pre ++ trace (run w host s sched init))
  \/ Connect_setup w self s = (Connect w self s sched, None).
Proof.
  unfold Connect.
  destruct (Connect_setup w self s) as [pre [[host cert]|]]; [left|right]; eauto.
Qed.

(** ** The channel *)

(** X1. The upstream goroutine never sends on the channel after closing it
    and never closes it twice: its channel operations are the sends, one
    per published request, followed by at most one close. *)
Theorem channel_sends_then_one_close (w : World) (self : EngineGAE)
    (s : Session) (sched : list Tid) :
  let tr := Connect w self s sched in
  chan_ops tr = replicate (length (published tr)) false \/
  chan_ops tr = replicate (length (published tr)) false ++ [true].
Proof.
  intros tr. subst tr.
  pose proof (setup_quiet w self s) as (_ & Hp & _ & _ & Hc & _).
  destruct (Connect_view w self s sched) as [(pre & host & cert & Hs & ->)|Hs];
    rewrite Hs in *; simpl in *.
  - rewrite chan_ops_app, published_app, Hp, Hc; simpl.
    destruct (bookkeeping_run w host s sched) as (_ & -> & _ & _ & _ & _ & -> & _).
    destruct (rch_closed _); [by right|left; by rewrite app_nil_r].
  - rewrite Hp, Hc. by left.
Qed.

(** X3. The channel neither loses, duplicates nor reorders requests, and
    nothing reaches it before it is on the backend connection: what the
    downstream loop has received is an initial part of what was sent on
    the channel, which is an initial part of what was written to the
    backend; at most one written request is not yet on the channel and at
    most eight sent requests are not yet received. *)
Theorem channel_is_fifo (w : World) (self : EngineGAE) (s : Session)
    (sched : list Tid) :
  let tr := Connect w self s sched in
  received tr `prefix_of` published tr /\
  published tr `prefix_of` sent_upstream tr /\
  length (sent_upstream tr) <= length (published tr) + 1 /\
  length (published tr) <= length (received tr) + 8.
Proof.
  intros tr. subst tr.
  pose proof (setup_quiet w self s) as (_ & Hp & Hr & _ & _ & _ & Hsent & _).
  destruct (Connect_view w self s sched) as [(pre & host & cert & Hs & ->)|Hs];
    rewrite Hs in *; simpl in *.
  - rewrite received_app, published_app, sent_upstream_app, Hp, Hr, Hsent; simpl.
    destruct (bookkeeping_run w host s sched) as (Hpub & _).
    destruct (in_order_invariant w host s sched) as [Hacc _].
    pose proof (rch_bounded w host s sched) as Hle.
    unfold accounted in Hacc. rewrite Hacc, Hpub.
    split_and!.
    + by apply prefix_app_r.
    + rewrite app_assoc. by apply prefix_app_r.
    + rewrite !length_app. unfold unpublished.
      destruct (up _); simpl; lia.
    + rewrite !length_app. lia.
  - rewrite Hp, Hr, Hsent. simpl. split_and!; try done; lia.
Qed.

(** X2. When the downstream loop ends because it finds the channel closed,
    no exchange is left behind: every request written to the backend has
    been sent on the channel and received, and each of them has had its
    response written to the client. *)
Theorem closure_seen_after_all_answered (w : World) (self : EngineGAE)
    (s : Session) (sched : list Tid) :
  let tr := Connect w self s sched in
  saw_closed tr = true ->
  published tr = sent_upstream tr /\
  received tr = sent_upstream tr /\
  length (answered tr) = length (sent_upstream tr).
Proof.
  intros tr. subst tr.
  pose proof (setup_quiet w self s)
    as (_ & Hp & Hr & Ha & _ & Hsc & Hsent & _).
  destruct (Connect_view w self s sched) as [(pre & host & cert & Hs & ->)|Hs];
    rewrite Hs in *; simpl in *.
  - rewrite saw_closed_app, received_app, published_app, sent_upstream_app,
      answered_app, Hp, Hr, Ha, Hsc, Hsent; simpl.
    intros Hsaw.
    destruct (bookkeeping_run w host s sched)
      as (Hpub & _ & Hdj & _ & _ & Hclosed & _ & Hseen).
    destruct (Hseen Hsaw) as (Hq & Hc & Hlen & _).
    destruct (in_order_invariant w host s sched) as [Hacc _].
    unfold accounted, unpublished in Hacc.
    apply Hclosed in Hc. rewrite Hc, Hq in Hacc. rewrite Hq in Hpub.
    rewrite !app_nil_r in *. rewrite Hacc, Hpub. split_and!; try done.
    by rewrite Hdj, Hlen.
  - by rewrite Hsc.
Qed.

(** X4. The handler reads ahead of its answers by at most ten requests:
    at any moment the requests read from the client, and so the requests
    written to the backend, exceed the responses written to the client by
    no more than ten (eight queued, one in each loop's hands). *)
Theorem read_ahead_bounded (w : World) (self : EngineGAE) (s : Session)
    (sched : list Tid) :
  let tr := Connect w self s sched in
  length (parsed tr) <= length (answered tr) + 10 /\
  length (sent_upstream tr) <= length (answered tr) + 10.
Proof.
  intros tr. subst tr.
  pose proof (setup_quiet w self s)
    as (Hpa & _ & _ & Ha & _ & _ & Hsent & _).
  destruct (Connect_view w self s sched) as [(pre & host & cert & Hs & ->)|Hs];
    rewrite Hs in *; simpl in *.
  - rewrite parsed_app, answered_app, sent_upstream_app, Hpa, Ha, Hsent; simpl.
    destruct (bookkeeping_run w host s sched)
      as (Hpub & Hui & Hdj & Hrecv & Hparsed & _).
    destruct (in_order_invariant w host s sched) as [Hacc _].
    pose proof (rch_bounded w host s sched) as Hle.
    unfold accounted, unpublished in Hacc.
    apply (f_equal length) in Hpub, Hacc. rewrite !length_app in *.
    assert (length (received (trace (run w host s sched init))) <=
            S (dj (run w host s sched init))) as Hr
      by (destruct (down _); lia).
    split.
    + destruct (up _); lia.
    + destruct (up _); simpl in *; lia.
  - rewrite Hpa, Hsent. simpl. lia.
Qed.

(** The bound is met: one request in the downstream loop's hands, eight
    queued, the tenth written to the backend and waiting at the send. *)
Example read_ahead_ten :
  let tr := Connect (Sample.world ten_requests) Sample.engine tunnel_session
                    (Sample.ups 3 ++ [Down] ++ Sample.ups 26) in
  length (parsed tr) = 10 /\ length (sent_upstream tr) = 10 /\
  length (answered tr) = 0.
Proof. vm_compute. repeat split. Qed.

Lemma closure_seen_after_all_answered_witness :
  length (answered drained) = length (sent_upstream drained).
Proof.
  apply (closure_seen_after_all_answered
           (Sample.world [Sample.GET "/a" false; Sample.GET "/b" false])
           Sample.engine tunnel_session (Sample.ups 8 ++ Sample.downs 8)).
  vm_compute. reflexivity.
Defined.

Example drained_bodies : written_bodies drained = ["/a"; "/b"].
Proof. vm_compute. reflexivity. Qed.

(** ** Releases *)

Section Releases.
Context (w : World) (host : string) (s : Session).

Lemma releases_closing fmt args l :
  releases (EvInfo fmt args ::
            map EvBodyClose l ++ [EvSconnClose; EvRconnClose; EvConnClose]) =
  map EvBodyClose l ++ [EvSconnClose; EvRconnClose; EvConnClose].
Proof.
  simpl. induction l as [|r l IH]; simpl; [done|]. by rewrite IH.
Qed.

Lemma bodies_deferred_step t st st' :
  bodies_deferred st -> step w host s t st = Some st' -> bodies_deferred st'.
Proof.
  unfold bodies_deferred. intros Hb Hst.
  step_cases t st Hst.
  all: rewrite ?releases_app, ?responses_read_app, ?releases_closing.
  all: try (destruct (closing_quiet "CLOSE %s" [Since w] (deferred st))
              as (_ & _ & _ & _ & _ & _ & _ & -> & _)).
  all: repeat case_decide.
  all: cbn [releases responses_read omap list_omap app].
  all: rewrite ?app_nil_r.
  all: try done.
  all: try (by destruct (http.RespClose _)).
  all: destruct Hb as [Hrel Hdef].
  - split; [done|]. by rewrite reverse_snoc, Hdef.
  - by rewrite Hrel, Hdef.
Qed.

Lemma bodies_deferred_run sched : bodies_deferred (run w host s sched init).
Proof.
  apply (run_invariant w host s bodies_deferred).
  - intros t st st'. apply bodies_deferred_step.
  - by split.
Qed.
End Releases.

(** What a successful setup says about the environment and about the
    trace so far. *)
Lemma setup_success (w : World) (self : EngineGAE) (s : Session) pre host cert :
  Connect_setup w self s = (pre, Some (host, cert)) ->
  http.Method (SRequest s) = "CONNECT" /\
  SplitHostPort w (url.Host (http.URL (SRequest s))) = Ok (host, "443") /\
  Hijacker w = true /\ Hijack w = None /\
  Dial w "tcp" (Addr (Env_ self)) = None /\
  Certs_Get w host = Ok cert /\ Handshake w cert host = None /\
  pre = [EvHijack; EvDial "tcp" (Addr (Env_ self)); EvConnWrite status200;
         EvCertsGet host; EvHandshake cert host].
Proof.
  unfold Connect_setup. intros H.
  repeat (match type of H with
          | context [match ?x with _ => _ end] => destruct x eqn:?
          end; simplify_eq/=).
  split_and!; try done.
  - match goal with H : ¬ http.Method _ ≠ _ |- _ => exact (dec_stable H) end.
  - match goal with H : ¬ ?p ≠ "443" |- _ => by rewrite (dec_stable H) end.
  - by destruct (Hijacker w).
Qed.

(** X5. Every connection and every response body the handler holds is
    released when the handler returns, and none before: while the relay
    runs nothing is closed, however many responses have been read; once
    the handler has returned, the bodies of the responses read have been
    closed, the last read first, then the TLS wrapper, the backend
    connection and the client connection, each only if it was obtained. *)
Theorem releases_at_return (w : World) (self : EngineGAE) (s : Session)
    (sched : list Tid) :
  let tr := Connect w self s sched in
  if handler_returned w self s sched
  then releases tr =
       map EvBodyClose (reverse (responses_read tr)) ++ owed w self tr
  else releases tr = [].
Proof.
  intros tr. subst tr. unfold handler_returned, Connect.
  destruct (Connect_setup w self s) as [pre [[host cert]|]] eqn:Hs.
  - destruct (setup_success _ _ _ _ _ _ Hs)
      as (_ & _ & _ & Hh & Hd & _ & _ & ->).
    pose proof (bodies_deferred_run w host s sched) as Hb.
    pose proof (run_relay_events w host s sched) as Hev.
    unfold bodies_deferred in Hb.
    rewrite releases_app, responses_read_app. simpl.
    destruct (is_done _).
    + rewrite Hb. f_equal. unfold owed. simpl. rewrite Hh, Hd.
      rewrite !bool_decide_eq_true_2 by done. reflexivity.
    + by destruct Hb as [-> _].
  - revert Hs. unfold Connect_setup, owed.
    repeat (match goal with
            | |- context [match ?x with _ => _ end] => destruct x eqn:?
            end; simpl; try by intros [= <-]).
Qed.

(** X6. The relay never starts on a failed setup: a request is read from
    the client, written to the backend or answered, and the CLOSE record is
    logged, only if the method is CONNECT, the target splits into a host
    and port 443, the hijack and the dial succeeded, the pool returned a
    certificate for that host and the TLS handshake with it succeeded. *)
Theorem relay_only_after_handshake (w : World) (self : EngineGAE)
    (s : Session) (sched : list Tid) (ev : Event) :
  ev ∈ Connect w self s sched ->
  is_relay_io ev = true ->
  exists host cert,
    http.Method (SRequest s) = "CONNECT" /\
    SplitHostPort w (url.Host (http.URL (SRequest s))) = Ok (host, "443") /\
    Hijacker w = true /\ Hijack w = None /\
    Dial w "tcp" (Addr (Env_ self)) = None /\
    Certs_Get w host = Ok cert /\ Handshake w cert host = None.
Proof.
  intros Hin Hev.
  destruct (Connect_view w self s sched) as [(pre & host & cert & Hs & _)|Hs].
  - exists host, cert.
    destruct (setup_success _ _ _ _ _ _ Hs) as (? & ? & ? & ? & ? & ? & ? & _).
    by split_and!.
  - pose proof (setup_quiet w self s) as (_ & _ & _ & _ & _ & _ & _ & _ & Hq).
    rewrite Hs in Hq. simpl in Hq.
    rewrite Forall_forall in Hq. specialize (Hq _ Hin). congruence.
Qed.

Lemma relay_only_after_handshake_witness :
  exists host cert,
    SplitHostPort (Sample.world [Sample.GET "/a" false; Sample.GET "/b" false])
      (url.Host (http.URL (SRequest tunnel_session))) = Ok (host, "443") /\
    Certs_Get (Sample.world [Sample.GET "/a" false; Sample.GET "/b" false]) host
      = Ok cert.
Proof.
  destruct (relay_only_after_handshake
              (Sample.world [Sample.GET "/a" false; Sample.GET "/b" false])
              Sample.engine tunnel_session (Sample.ups 8 ++ Sample.downs 8)
              (EvReadRequest (Ok (Sample.GET "/a" false))))
    as (host & cert & _ & Hsplit & _ & _ & _ & Hget & _).
  - apply (list_elem_of_lookup_2 _ 5). vm_compute. reflexivity.
  - reflexivity.
  - exists host, cert. split; [exact Hsplit | exact Hget].
Defined.

(** X7. The TLS server only ever presents the certificate the pool
    returned for the host of the CONNECT target, under that host's name,
    and the pool is asked for no other host. *)
Theorem handshake_uses_pool_certificate (w : World) (self : EngineGAE)
    (s : Session) (sched : list Tid) :
  (forall cert name,
      EvHandshake cert name ∈ Connect w self s sched ->
      exists host port,
        SplitHostPort w (url.Host (http.URL (SRequest s))) = Ok (host, port) /\
        name = host /\ Certs_Get w host = Ok cert) /\
  (forall h,
      EvCertsGet h ∈ Connect w self s sched ->
      exists port,
        SplitHostPort w (url.Host (http.URL (SRequest s))) = Ok (h, port)).
Proof.
  assert (forall ev, ev ∈ Connect w self s sched ->
                     is_handshake ev = true \/ is_pre_handshake ev = true ->
                     ev ∈ (Connect_setup w self s).1) as Hsetup.
  { intros ev Hin Hev.
    destruct (Connect_view w self s sched) as [(pre & host & cert & Hs & Htr)|Hs];
      rewrite Hs; simpl; [|done].
    rewrite Htr in Hin. apply elem_of_app in Hin as [Hin|Hin]; [done|].
    pose proof (run_relay_events w host s sched) as Hall.
    rewrite Forall_forall in Hall. specialize (Hall _ Hin).
    destruct ev; simpl in *; destruct Hev; congruence. }
  split.
  - intros cert name Hin. apply Hsetup in Hin; [|by left].
    revert Hin. unfold Connect_setup.
    repeat (match goal with
            | |- context [match ?x with _ => _ end] => destruct x eqn:?
            end; simpl);
      intros Hin;
      repeat (apply elem_of_cons in Hin as [Hin|Hin]; simplify_eq);
      try (by apply elem_of_nil in Hin); eauto.
  - intros h Hin. apply Hsetup in Hin; [|by right].
    revert Hin. unfold Connect_setup.
    repeat (match goal with
            | |- context [match ?x with _ => _ end] => destruct x eqn:?
            end; simpl);
      intros Hin;
      repeat (apply elem_of_cons in Hin as [Hin|Hin]; simplify_eq);
      try (by apply elem_of_nil in Hin); eauto.
Qed.

Lemma handshake_uses_pool_certificate_witness :
  exists host port,
    SplitHostPort (Sample.world []) (url.Host (http.URL (SRequest tunnel_session)))
      = Ok (host, port) /\
    "secure.example.com" = host /\
    Certs_Get (Sample.world []) host = Ok (mkCert "secure.example.com").
Proof.
  apply (proj1 (handshake_uses_pool_certificate (Sample.world [])
                  Sample.engine tunnel_session [Up; Down])
           (mkCert "secure.example.com") "secure.example.com").
  apply (list_elem_of_lookup_2 _ 4). vm_compute. reflexivity.
Defined.

Example drained_releases :
  releases drained =
  [EvBodyClose (Sample.reply "/b" false); EvBodyClose (Sample.reply "/a" false);
   EvSconnClose; EvRconnClose; EvConnClose].
Proof. vm_compute. reflexivity. Qed.

(** ** The end of a tunnel *)

Section Ending.
Context (w : World) (host : string) (s : Session).





(** After the return the handler's goroutine does nothing more, and a
    goroutine that waits at the send on a full channel waits for ever. *)
Lemma after_return_step t st st' :
  is_done (down st) = true -> step w host s t st = Some st' ->
  is_done (down st') = true /\
  received (trace st') = received (trace st) /\
  down_io (trace st') = down_io (trace st) /\
  answered (trace st') = answered (trace st) /\
  releases (trace st') = releases (trace st) /\
  exists more, rch st' = rch st ++ more.
Proof.
  intros Hd Hst. step_cases t st Hst.
  all: try done.
  all: rewrite ?received_app, ?down_io_app, ?answered_app, ?releases_app.
  all: repeat case_decide.
  all: cbn [received down_io answered releases omap list_omap app].
  all: rewrite ?app_nil_r.
  all: split_and!; try done.
  all: first [by exists [] ; rewrite app_nil_r | by eexists].
Qed.
End Ending.



(** X9. When the handler has returned, nothing more is received from the
    channel, read from the backend, written to the client or closed,
    whatever the upstream goroutine still does; the channel only fills up.
    A goroutine that stands at the send on the full channel at that point
    is never released: no schedule moves the tunnel any further, so that
    goroutine never ends and never closes the channel. *)
Theorem after_return_nothing_relayed (w : World) (host : string) (s : Session)
    (st : Tunnel) (sched : list Tid) :
  is_done (down st) = true ->
  let st' := run w host s sched st in
  is_done (down st') = true /\
  received (trace st') = received (trace st) /\
  down_io (trace st') = down_io (trace st) /\
  answered (trace st') = answered (trace st) /\
  releases (trace st') = releases (trace st) /\
  (exists more, rch st' = rch st ++ more) /\
  (forall creq, up st = USend creq -> length (rch st) = 8 -> st' = st).
Proof.
  intros Hd st'. subst st'. split_and!.
  1-6: revert st Hd; induction sched as [|t sched IH]; intros st Hd; simpl;
       [first [done | by exists []; rewrite app_nil_r]|];
       destruct (step w host s t st) as [st1|] eqn:Hst; simpl; [|by apply IH];
       destruct (after_return_step w host s t st st1 Hd Hst)
         as (Hd1 & Hr & Hio & Ha & Hrel & more & Hq);
       specialize (IH st1 Hd1).
  - done.
  - congruence.
  - congruence.
  - congruence.
  - congruence.
  - destruct IH as [more' ->]. rewrite Hq, <- app_assoc. by eexists.
  - intros creq Hup Hfull.
    induction sched as [|t sched IH]; simpl; [done|].
    assert (step w host s t st = None) as ->; [|done].
    destruct t; simpl.
    + apply up_blocked. right. exists creq. split; [done|lia].
    + unfold down_step. by destruct (down st).
Qed.

Lemma after_return_nothing_relayed_witness :
  run (backend_ends EOF ten_requests) "secure.example.com" tunnel_session
      (Sample.ups 5 ++ Sample.downs 5) abandoned = abandoned.
Proof.
  assert (is_done (down abandoned) = true) as Hd by (vm_compute; reflexivity).
  destruct (after_return_nothing_relayed
              (backend_ends EOF ten_requests) "secure.example.com"
              tunnel_session abandoned (Sample.ups 5 ++ Sample.downs 5) Hd)
    as (_ & _ & _ & _ & _ & _ & Hstuck).
  apply (Hstuck (rewrite (Sample.world []) "secure.example.com" tunnel_session
                         (Sample.GET "/10" false))).
  - vm_compute. reflexivity.
  - vm_compute. reflexivity.
Defined.

(** ** The plain relay, continued *)

(** X10. [Serve] closes every body it obtained, on every path and as the
    last thing it does: once the post has succeeded the reply's body is
    closed at the very end, also when the upstream answered 500, when the
    embedded response could not be read and when the copy failed; the body
    of the embedded response, once read, is closed just before it; and
    nothing is closed when the post did not succeed. *)
Theorem serve_closes_what_it_opened (w : World) (self : EngineGAE)
    (s : Session) :
  let r := SRequest s in
  let tr := Serve w self s in
  (forall buf resp,
      http.Method r ≠ "CONNECT" ->
      WriteProxy_buf w r = Ok buf ->
      Post w (upstream_url self) "application/data" buf = Ok resp ->
      exists before,
        releases before = [] /\
        (tr = before ++ [EvBodyClose resp] \/
         exists cres,
           ReadResponse_body w (http.Body resp) r = Ok cres /\
           tr = before ++ [EvBodyClose cres; EvBodyClose resp]))
  /\
  (forall cres,
      EvCopyHeader cres ∈ tr ->
      exists before resp, tr = before ++ [EvBodyClose cres; EvBodyClose resp])
  /\
  ((http.Method r = "CONNECT" \/
    is_Some (err_of (WriteProxy_buf w r)) \/
    exists buf,
      WriteProxy_buf w r = Ok buf /\
      is_Some (err_of (Post w (upstream_url self) "application/data" buf))) ->
   releases tr = []).
Proof.
  intros r tr. subst tr. unfold Serve. fold r. split_and!.
  - intros buf resp Hm Hb Hp. rewrite decide_False by done. rewrite Hb, Hp.
    case_decide.
    { eexists [_; _]. split; [|left; reflexivity]. reflexivity. }
    destruct (ReadResponse_body w (http.Body resp) r) as [cres|e] eqn:Hr.
    2:{ eexists [_; _]. split; [|left; reflexivity]. reflexivity. }
    destruct (Copy w cres) as [e|].
    + eexists [_; _; _; _; _].
      split; [|right; exists cres; split; [done|reflexivity]]. reflexivity.
    + eexists [_; _; _; _; _].
      split; [|right; exists cres; split; [done|reflexivity]]. reflexivity.
  - intros cres.
    repeat (match goal with
            | |- context [match ?x with _ => _ end] => destruct x eqn:?
            end; simpl);
      intros Hin;
      repeat (apply elem_of_cons in Hin as [Hin|Hin]; simplify_eq);
      try (by apply elem_of_nil in Hin).
    + eexists [_; _; _; _; _], _. reflexivity.
    + eexists [_; _; _; _; _], _. reflexivity.
  - intros [Hm|[[e He]|(buf & Hb & e & He)]].
    + by rewrite decide_True.
    + destruct (WriteProxy_buf w r); [done|]. by case_decide.
    + rewrite Hb. destruct (Post w _ _ buf); [done|]. by case_decide.
Qed.

Lemma serve_closes_what_it_opened_witness :
  exists before,
    releases before = [] /\
    (Serve (Sample.world []) debug_engine plain_session =
       before ++ [EvBodyClose (Sample.reply
                    ("GET http://example.com/ HTTP/1.1" +:+ CRLF +:+ CRLF) false)]
     \/ exists cres,
          ReadResponse_body (Sample.world [])
            (http.Body (Sample.reply
               ("GET http://example.com/ HTTP/1.1" +:+ CRLF +:+ CRLF) false))
            (SRequest plain_session) = Ok cres /\
          Serve (Sample.world []) debug_engine plain_session =
            before ++ [EvBodyClose cres;
                       EvBodyClose (Sample.reply
                         ("GET http://example.com/ HTTP/1.1" +:+ CRLF +:+ CRLF)
                         false)]).
Proof.
  apply (proj1 (serve_closes_what_it_opened (Sample.world []) debug_engine
                  plain_session)
           ("GET http://example.com/ HTTP/1.1" +:+ CRLF +:+ CRLF)).
  - discriminate.
  - reflexivity.
  - reflexivity.
Defined.

(** ** Construction *)

(** X11. [CreateEngineGAE] hands back an engine on every path, with its
    work and certificate directories set. The engine has its root
    certificate and its certificate pool exactly when no error is
    returned, which is exactly when the directory could be made (or the
    failure says it exists) and the key pair loaded; the pool is then built
    on the directory just made and on the certificate just loaded. A caller
    that ignores the error holds an engine without a pool. *)
Theorem created_complete_iff_no_error (h : Host) (e : Env) :
  let '(c, err, evs) := CreateEngineGAE h e in
  let work := path_Join h [EnvWork e; "gae"] in
  let certDir := path_Join h [work; "certs"] in
  Engine c = mkEngineGAE e work certDir /\
  (err = None <-> is_Some (Certs c)) /\
  (err = None <-> is_Some (RootCA c)) /\
  (err = None <->
   (forall err0, MkdirAll h certDir 493 = Some err0 -> IsExist h err0 = true) /\
   is_Some (ptr (LoadX509KeyPair h (Cert e) (Key e)))) /\
  (forall rcert,
      RootCA c = Some rcert ->
      LoadX509KeyPair h (Cert e) (Key e) = Ok rcert /\
      Certs c = Some (NewCertPool certDir rcert) /\
      evs = [EvMkdirAll certDir 493; EvLoadX509KeyPair (Cert e) (Key e);
             EvNewCertPool certDir rcert]).
Proof.
  unfold CreateEngineGAE.
  destruct (MkdirAll h _ 493) as [err0|] eqn:Hmk;
    [destruct (IsExist h err0) eqn:Hex; simpl|];
    try destruct (LoadX509KeyPair h (Cert e) (Key e)) as [rcert|err1] eqn:Hl;
    simpl; split_and!; try done.
  all: try solve [split; [done | by intros []]].
  all: try solve [split; [| done]; intros _; split;
                  [intros ? [= <-]; done | by eexists]].
  all: try solve [split; [| done]; intros _; split;
                  [by intros ? [=] | by eexists]].
  all: try solve [split; [done|]; intros [Hall _];
                  specialize (Hall _ eq_refl); congruence].
  all: try solve [split; [done|]; intros [_ [? [=]]]].
  all: try solve [by intros ? [= <-]].
Qed.

(** X12. A failure of MkdirAll that says the directory exists changes
    nothing: the constructor goes on as if the directory had been made,
    the stale error is not returned, and the result is the one obtained
    with a MkdirAll that succeeds. Any other failure of MkdirAll is
    returned at once: the key pair is not loaded and no pool is built. *)
Theorem existing_directory_tolerated (h : Host) (e : Env) (err : option error) :
  MkdirAll h (path_Join h [path_Join h [EnvWork e; "gae"]; "certs"]) 493 = err ->
  match err with
  | None => CreateEngineGAE h e = CreateEngineGAE (mkdir_ok h) e
  | Some err0 =>
      if IsExist h err0
      then CreateEngineGAE h e = CreateEngineGAE (mkdir_ok h) e
      else exists c,
          CreateEngineGAE h e =
          (c, Some err0,
           [EvMkdirAll (path_Join h [path_Join h [EnvWork e; "gae"]; "certs"]) 493])
          /\ RootCA c = None /\ Certs c = None
  end.
Proof.
  intros Hmk. unfold CreateEngineGAE, mkdir_ok; simpl. rewrite Hmk.
  destruct err as [err0|]; [|done].
  destruct (IsExist h err0); simpl; [done|]. by eexists.
Qed.

Lemma existing_directory_tolerated_witness :
  CreateEngineGAE (sample_host (Some (ErrOther "mkdir: file exists")) true
                     (Ok (mkCert "root")))
                  (Env_ Sample.engine) =
  CreateEngineGAE (mkdir_ok (sample_host (Some (ErrOther "mkdir: file exists"))
                               true (Ok (mkCert "root"))))
                  (Env_ Sample.engine).
Proof.
  apply (existing_directory_tolerated
           (sample_host (Some (ErrOther "mkdir: file exists")) true
              (Ok (mkCert "root")))
           (Env_ Sample.engine) (Some (ErrOther "mkdir: file exists"))).
  reflexivity.
Defined.

Example create_ok :
  CreateEngineGAE (sample_host None false (Ok (mkCert "root")))
                  (Env_ Sample.engine) =
  (mkCreated Sample.engine (Some (mkCert "root"))
     (Some (NewCertPool "/home/u/.mallory/gae/certs" (mkCert "root"))),
   None,
   [EvMkdirAll "/home/u/.mallory/gae/certs" 493;
    EvLoadX509KeyPair "mallory.crt" "mallory.key";
    EvNewCertPool "/home/u/.mallory/gae/certs" (mkCert "root")]).
Proof. vm_compute. reflexivity. Qed.

(** ** Forwarding order and the session log *)

Section Pipeline.
Context (w : World) (host : string) (s : Session).

Lemma reported_app tr evs : reported (tr ++ evs) = reported tr ++ reported evs.
Proof. apply omap_app. Qed.

Lemma recorded_app tr evs : recorded (tr ++ evs) = recorded tr ++ recorded evs.
Proof. apply omap_app. Qed.

Lemma log_closing fmt args l :
  let evs := EvInfo fmt args ::
             map EvBodyClose l ++ [EvSconnClose; EvRconnClose; EvConnClose] in
  reported evs = [] /\ recorded evs = [(fmt, args)].
Proof.
  simpl. induction l as [|r l IH]; simpl; [done|]. exact IH.
Qed.

Lemma reads_in_order_step t st st' :
  bookkeeping st -> reads_in_order w st -> step w host s t st = Some st' ->
  reads_in_order w st'.
Proof.
  unfold reads_in_order.
  intros (_ & _ & _ & _ & Hparsed & _) Hall Hst.
  step_cases t st Hst.
  all: rewrite ?parsed_app.
  all: try (destruct (closing_quiet "CLOSE %s" [Since w] (deferred st))
              as (-> & _)).
  all: repeat case_decide.
  all: cbn [parsed omap list_omap app].
  all: rewrite ?app_nil_r.
  all: try done.
  intros i creq0 Hi. apply lookup_app_Some in Hi as [Hi|[Hge Hi]]; [by apply Hall|].
  apply list_lookup_singleton_Some in Hi as [Hi <-].
  by replace i with (ui st) by lia.
Qed.

Lemma reads_in_order_run sched : reads_in_order w (run w host s sched init).
Proof.
  pose proof (run_invariant w host s
                (fun st => bookkeeping st /\ reads_in_order w st)) as Hinv.
  apply Hinv.
  - intros t st st' [Hb Hr] Hst. split.
    + by eapply bookkeeping_step.
    + by eapply reads_in_order_step.
  - split.
    + unfold bookkeeping; simpl. split_and!; try done.
    + intros i creq0 Hi. simpl in Hi. done.
Qed.

Lemma log_discipline_step t st st' :
  log_discipline w st -> step w host s t st = Some st' -> log_discipline w st'.
Proof.
  unfold log_discipline. intros [Hrep Hrec] Hst.
  step_cases t st Hst.
  all: rewrite ?reported_app, ?recorded_app.
  all: try (destruct (log_closing "CLOSE %s" [Since w] (deferred st))
              as (-> & ->)).
  all: repeat case_decide.
  all: cbn [reported recorded omap list_omap app length].
  all: rewrite ?app_nil_r, ?length_app.
  all: try (match goal with H : down _ = _ |- _ => rewrite H in * end).
  all: try (match goal with H : up _ = _ |- _ => rewrite H in * end).
  all: simpl in *.
  all: try (destruct (http.Close _)).
  all: try (destruct (http.RespClose _)).
  all: simpl.
  all: try (split; [lia | done]).
  all: destruct (up_out (up st)), (is_done (down st)); simpl in *;
       (split; [lia | by rewrite ?Hrec]).
Qed.

Lemma log_discipline_run sched : log_discipline w (run w host s sched init).
Proof.
  apply (run_invariant w host s (log_discipline w)).
  - intros t st st'. apply log_discipline_step.
  - split; simpl; [lia|done].
Qed.

Lemma sent_are_rewrites sched :
  let tr := trace (run w host s sched init) in
  sent_upstream tr =
    map (rewrite w host s) (take (length (sent_upstream tr)) (parsed tr)) /\
  length (sent_upstream tr) <= length (parsed tr) <= S (length (sent_upstream tr)).
Proof.
  intros tr. subst tr.
  destruct (bookkeeping_run w host s sched) as (_ & Hui & _ & _ & Hparsed & _).
  destruct (forwarded_rewritten_run w host s sched) as (Hall & Hlen & _).
  pose proof (reads_in_order_run sched) as Hreads.
  destruct (in_order_invariant w host s sched) as [Hacc _].
  set (st := run w host s sched init) in *.
  assert (length (sent_upstream (trace st)) <= length (parsed (trace st))
          <= S (length (sent_upstream (trace st)))) as Hle.
  { rewrite Hlen. unfold unpublished. destruct (up st); simpl in *; lia. }
  split; [|exact Hle].
  apply list_eq. intros i. rewrite list_lookup_fmap.
  destruct (sent_upstream (trace st) !! i) as [creq|] eqn:Hi.
  - destruct (Hall i creq Hi) as (creq0 & Hr & ->).
    apply lookup_lt_Some in Hi as Hlt.
    rewrite lookup_take_lt by done.
    destruct (parsed (trace st) !! i) as [c|] eqn:Hp.
    + apply Hreads in Hp. rewrite Hr in Hp. by simplify_eq.
    + apply lookup_ge_None in Hp. lia.
  - apply lookup_ge_None in Hi. by rewrite lookup_take_ge.
Qed.
End Pipeline.

(** X13. Requests are forwarded in the order they are read and none is
    skipped: the requests written to the backend are the rewrites (URL made
    absolute on the CONNECT host, session tag set) of an initial part of
    the requests read from the client, and at most one request that was
    read has not been written. *)
Theorem forwarded_in_reading_order (w : World) (self : EngineGAE)
    (s : Session) (sched : list Tid) (host port : string) :
  SplitHostPort w (url.Host (http.URL (SRequest s))) = Ok (host, port) ->
  let tr := Connect w self s sched in
  sent_upstream tr =
    map (rewrite w host s) (take (length (sent_upstream tr)) (parsed tr)) /\
  length (sent_upstream tr) <= length (parsed tr) <= S (length (sent_upstream tr)).
Proof.
  intros Hsplit tr. subst tr.
  pose proof (setup_quiet w self s) as (Hpa & _ & _ & _ & _ & _ & Hsent & _).
  destruct (Connect_view w self s sched) as [(pre & h & cert & Hs & ->)|Hs];
    rewrite Hs in *; simpl in *.
  - destruct (setup_success _ _ _ _ _ _ Hs) as (_ & Hsplit' & _).
    rewrite Hsplit in Hsplit'. simplify_eq.
    rewrite sent_upstream_app, parsed_app, Hpa, Hsent. simpl.
    apply sent_are_rewrites.
  - rewrite Hpa, Hsent. simpl. split; [done|lia].
Qed.

Lemma forwarded_in_reading_order_witness :
  sent_upstream drained =
  map (rewrite (Sample.world [Sample.GET "/a" false; Sample.GET "/b" false])
               "secure.example.com" tunnel_session)
      (take (length (sent_upstream drained)) (parsed drained)).
Proof.
  apply (forwarded_in_reading_order
           (Sample.world [Sample.GET "/a" false; Sample.GET "/b" false])
           Sample.engine tunnel_session (Sample.ups 8 ++ Sample.downs 8)
           "secure.example.com" "443").
  reflexivity.
Defined.

(** X14. A tunnel reports at most two failures, one by each loop as it
    leaves; a CONNECT that fails before the relay reports exactly one. The
    completion record CLOSE is written once, when the handler returns from
    a relay that had started, whether or not a failure ended it, and in no
    other case. *)
Theorem session_log_discipline (w : World) (self : EngineGAE) (s : Session)
    (sched : list Tid) :
  let tr := Connect w self s sched in
  length (reported tr) <= 2 /\
  (relay_started w self s = false -> length (reported tr) = 1) /\
  recorded tr =
    if relay_started w self s && handler_returned w self s sched
    then [("CLOSE %s", [Since w])] else [].
Proof.
  intros tr. subst tr. unfold relay_started, handler_returned, Connect.
  destruct (Connect_setup w self s) as [pre [[host cert]|]] eqn:Hs; simpl.
  - destruct (setup_success _ _ _ _ _ _ Hs) as (_ & _ & _ & _ & _ & _ & _ & ->).
    rewrite reported_app, recorded_app. simpl.
    destruct (log_discipline_run w host s sched) as [Hrep Hrec].
    split_and!; [|done|exact Hrec].
    destruct (up_out _), (down_out _); simpl in *; lia.
  - revert Hs. unfold Connect_setup.
    repeat (match goal with
            | |- context [match ?x with _ => _ end] => destruct x eqn:?
            end; simpl;
            try solve [intros [= <-]; simpl; split_and!; [lia|done|done]
                      | intros [=]]).
Qed.

Lemma session_log_discipline_witness :
  length (reported (Connect (Sample.world []) Sample.engine
                      (Sample.session (Sample.CONNECT "secure.example.com:80"))
                      [Up; Down])) = 1.
Proof.
  apply (proj1 (proj2 (session_log_discipline (Sample.world []) Sample.engine
                         (Sample.session (Sample.CONNECT "secure.example.com:80"))
                         [Up; Down]))).
  reflexivity.
Defined.

Example failed_relay_still_closes :
  let tr := Connect (backend_ends (ErrOther "connection reset")
                       [Sample.GET "/" false])
                    Sample.engine tunnel_session
                    (Sample.ups 3 ++ Sample.downs 3) in
  reported tr = [("ReadResponse: %s", ["connection reset"])] /\
  recorded tr = [("CLOSE %s", ["1ms"])].
Proof. vm_compute. split; reflexivity. Qed.

Lemma created_complete_iff_no_error_witness :
  LoadX509KeyPair (sample_host None false (Ok (mkCert "root")))
    "mallory.crt" "mallory.key" = Ok (mkCert "root") /\
  Certs (CreateEngineGAE (sample_host None false (Ok (mkCert "root")))
           (Env_ Sample.engine)).1.1 =
  Some (NewCertPool "/home/u/.mallory/gae/certs" (mkCert "root")).
Proof.
  pose proof (created_complete_iff_no_error
                (sample_host None false (Ok (mkCert "root")))
                (Env_ Sample.engine)) as T.
  vm_compute in T. destruct T as (_ & _ & _ & _ & Hroot).
  destruct (Hroot (mkCert "root") eq_refl) as (Hl & Hc & _).
  split; [exact Hl | exact Hc].
Defined.

(** ** No deadlock between the loops *)

Lemma down_blocked (w : World) (st : Tunnel) :
  down_step w st = None <->
  is_done (down st) = true \/
  (down st = DRecv /\ rch st = [] /\ rch_closed st = false).
Proof.
  unfold down_step. split.
  - intros H.
    destruct (down st) as [|creq|cresp| |];
      repeat (match type of H with
              | context [match ?x with _ => _ end] => destruct x eqn:?
              end);
      simplify_eq/=; eauto.
  - intros [Hd|(-> & -> & ->)]; [|done]. by destruct (down st).
Qed.

(** X15. The two loops never block each other: as long as the handler has
    not returned, at least one of the two goroutines can move. When the
    downstream loop waits on the empty channel the upstream goroutine can
    move, and when the upstream goroutine waits on the full channel the
    downstream loop can move unless it has already returned. *)
Theorem relay_never_deadlocks (w : World) (host : string) (s : Session)
    (sched : list Tid) :
  let st := run w host s sched init in
  is_done (down st) = false ->
  (down_step w st = None -> is_Some (up_step w host s st)) /\
  (up_step w host s st = None -> is_Some (down_step w st)).
Proof.
  intros st Hd.
  pose proof (closed_iff_done w host s sched) as Hclosed. fold st in Hclosed.
  assert (down_step w st = None -> is_Some (up_step w host s st)) as Hup.
  { intros Hb. apply down_blocked in Hb as [Hb|(Hrecv & Hq & Hc)]; [congruence|].
    destruct (up_step w host s st) eqn:Hu; [by eexists|].
    apply up_blocked in Hu as [Hu|(creq & _ & Hfull)].
    - apply Hclosed in Hu. congruence.
    - rewrite Hq in Hfull. simpl in Hfull. lia. }
  split; [exact Hup|].
  intros Hu. destruct (down_step w st) eqn:Hb; [by eexists|].
  destruct (Hup eq_refl) as [st' Hst']. congruence.
Qed.

Lemma relay_never_deadlocks_witness :
  is_Some (down_step (Sample.world nine_requests) (flooded 30)).
Proof.
  apply (proj2 (relay_never_deadlocks (Sample.world nine_requests)
                  "secure.example.com" tunnel_session (Sample.ups 30)
                  eq_refl)).
  vm_compute. reflexivity.
Defined.
